(** * The LDA tutorial pipeline (docs/src/auto_examples/tutorials/run_lda.ipynb)

    A shallow embedding of the notebook's cells: corpus extraction, the
    tokenisation loop, the two filtering comprehensions, lemmatisation, the
    bigram loop, dictionary filtering, bag-of-words and the coherence average.

    Python [str] values are sequences of Unicode code points, [bytes] values
    are sequences of [byte]; exceptions are an explicit [Raise] result. *)

From Stdlib Require Import List ZArith NArith String Ascii QArith Lia Bool.
From Stdlib Require Import SpecFloat.
From Stdlib.Strings Require Import Byte.
From stdpp Require Import gmap list fin_maps.
Import ListNotations.
Close Scope Q_scope.

(** ** Exceptions *)

Inductive exn :=
| IndexError
| AttributeError
| TypeError
| UnicodeDecodeError
| OSError        (* smart_open: the URL could not be opened or read *)
| TarError.      (* tarfile.ReadError and its relatives *)

Inductive result (A : Type) :=
| Ok (a : A)
| Raise (e : exn).
Arguments Ok {A} a.
Arguments Raise {A} e.

Definition bind {A B} (r : result A) (k : A -> result B) : result B :=
  match r with
  | Ok a => k a
  | Raise e => Raise e
  end.

Notation "'let!' x ':=' r 'in' k" := (bind r (fun x => k))
  (at level 10, x name, r at level 200, k at level 200).

(** ** Python strings *)

Abbreviation char := N (only parsing).
Abbreviation str := (list N) (only parsing).

(** An ASCII literal as a [str]. *)
Definition of_string (s : string) : str :=
  map N_of_ascii (list_ascii_of_string s).

(** The Unicode character database is not part of the notebook: outside the
    ASCII range the classification of a code point and the lower-casing of a
    string are taken from these tables. *)
Record unicode_db := {
  uni_isalnum : char -> bool;
  uni_isnumeric : char -> bool;
  uni_isdecimal : char -> bool;
  uni_lower : str -> str
}.

(** Tables that know no letter or digit outside ASCII. *)
Definition ascii_tables : unicode_db :=
  {| uni_isalnum := fun _ => false;
     uni_isnumeric := fun _ => false;
     uni_isdecimal := fun _ => false;
     uni_lower := fun s => s |}.

Module Str.

Definition is_ascii (c : char) : bool := (c <? 128)%N.
Definition ascii_isdigit (c : char) : bool := ((48 <=? c) && (c <=? 57))%N.
Definition ascii_isupper (c : char) : bool := ((65 <=? c) && (c <=? 90))%N.
Definition ascii_islower (c : char) : bool := ((97 <=? c) && (c <=? 122))%N.
Definition ascii_tolower (c : char) : char :=
  if ascii_isupper c then (c + 32)%N else c.

(** ['_' in token] *)
Definition underscore : char := 95%N.
Definition contains (c : char) (s : str) : bool := existsb (N.eqb c) s.

Section Tables.

Variable U : unicode_db.

Definition isalnum (c : char) : bool :=
  if is_ascii c then ascii_isdigit c || ascii_isupper c || ascii_islower c
  else uni_isalnum U c.

(** [\w]: alphanumeric or the underscore. *)
Definition is_word_char (c : char) : bool := isalnum c || (c =? underscore)%N.

(** [\d]: a decimal digit. *)
Definition is_decimal_char (c : char) : bool :=
  if is_ascii c then ascii_isdigit c else uni_isdecimal U c.

Definition isnumeric_char (c : char) : bool :=
  if is_ascii c then ascii_isdigit c else uni_isnumeric U c.

(** [s.isnumeric()]: at least one character and all of them numeric. *)
Definition isnumeric (s : str) : bool :=
  match s with
  | [] => false
  | _ :: _ => forallb isnumeric_char s
  end.

(** [s.lower()] *)
Definition lower (s : str) : str :=
  if forallb is_ascii s then map ascii_tolower s else uni_lower U s.

(** [RegexpTokenizer(r'\w+').tokenize(s)], that is [re.findall(r'\w+', s)]:
    the maximal runs of word characters, left to right.  [cur] is the run
    being read. *)
Definition flush (cur : str) : list str :=
  match cur with
  | [] => []
  | _ :: _ => [cur]
  end.

Fixpoint findall_word (cur : str) (s : str) : list str :=
  match s with
  | [] => flush cur
  | c :: s' =>
      if is_word_char c then findall_word (cur ++ [c]) s'
      else flush cur ++ findall_word [] s'
  end.

Definition tokenize (s : str) : list str := findall_word [] s.

End Tables.

End Str.

(** ** [bytes.decode('utf-8', errors=...)]

    The decoder reads one scalar value at a time.  At a malformed sequence the
    error handler is called with the extent of the malformed part: one byte
    for an invalid start byte, the bytes read so far for an invalid
    continuation byte, everything that is left for a sequence cut by the end
    of the data.  ['strict'] raises, ['replace'] emits U+FFFD and resumes
    after the malformed part. *)

Module Utf8.

Inductive errors := Strict | Replace.

Definition replacement_character : char := 0xFFFD%N.

Definition emit (c : char) (k : result str) : result str :=
  match k with
  | Ok s => Ok (c :: s)
  | Raise e => Raise e
  end.

Definition on_error (h : errors) (k : result str) : result str :=
  match h with
  | Strict => Raise UnicodeDecodeError
  | Replace => emit replacement_character k
  end.

Definition is_continuation (b : N) : bool := ((0x80 <=? b) && (b <? 0xC0))%N.

(** Second bytes that would give an overlong form or a surrogate (three-byte
    sequences), an overlong form or a value above U+10FFFF (four-byte ones). *)
Definition bad_second3 (ch ch2 : N) : bool :=
  (if ch2 <? 0xA0 then ch =? 0xE0 else ch =? 0xED)%N.
Definition bad_second4 (ch ch2 : N) : bool :=
  (if ch2 <? 0x90 then ch =? 0xF0 else ch =? 0xF4)%N.

Definition scalar2 (ch ch2 : N) : char :=
  ((ch - 0xC0) * 64 + (ch2 - 0x80))%N.
Definition scalar3 (ch ch2 ch3 : N) : char :=
  ((ch - 0xE0) * 4096 + (ch2 - 0x80) * 64 + (ch3 - 0x80))%N.
Definition scalar4 (ch ch2 ch3 ch4 : N) : char :=
  ((ch - 0xF0) * 262144 + (ch2 - 0x80) * 4096 + (ch3 - 0x80) * 64 + (ch4 - 0x80))%N.

Fixpoint decode (h : errors) (bs : list byte) : result str :=
  match bs with
  | [] => Ok []
  | b0 :: r0 =>
      let ch := Byte.to_N b0 in
      if (ch <? 0x80)%N then emit ch (decode h r0)
      else if (ch <? 0xC2)%N then on_error h (decode h r0)
      else if (ch <? 0xE0)%N then
        match r0 with
        | [] => on_error h (Ok [])
        | b1 :: r1 =>
            let ch2 := Byte.to_N b1 in
            if negb (is_continuation ch2) then on_error h (decode h r0)
            else emit (scalar2 ch ch2) (decode h r1)
        end
      else if (ch <? 0xF0)%N then
        match r0 with
        | [] => on_error h (Ok [])
        | b1 :: r1 =>
            let ch2 := Byte.to_N b1 in
            if negb (is_continuation ch2) || bad_second3 ch ch2
            then on_error h (decode h r0)
            else
              match r1 with
              | [] => on_error h (Ok [])
              | b2 :: r2 =>
                  let ch3 := Byte.to_N b2 in
                  if negb (is_continuation ch3) then on_error h (decode h r1)
                  else emit (scalar3 ch ch2 ch3) (decode h r2)
              end
        end
      else if (ch <? 0xF5)%N then
        match r0 with
        | [] => on_error h (Ok [])
        | b1 :: r1 =>
            let ch2 := Byte.to_N b1 in
            if negb (is_continuation ch2) || bad_second4 ch ch2
            then on_error h (decode h r0)
            else
              match r1 with
              | [] => on_error h (Ok [])
              | b2 :: r2 =>
                  let ch3 := Byte.to_N b2 in
                  if negb (is_continuation ch3) then on_error h (decode h r1)
                  else
                    match r2 with
                    | [] => on_error h (Ok [])
                    | b3 :: r3 =>
                        let ch4 := Byte.to_N b3 in
                        if negb (is_continuation ch4)
                        then on_error h (decode h r2)
                        else emit (scalar4 ch ch2 ch3 ch4) (decode h r3)
                    end
              end
        end
      else on_error h (decode h r0)
  end.

End Utf8.

(** ** Corpus acquisition: [extract_documents] *)

Module Acquire.

(** A generator that is run to its end: the values it yielded and the
    exception that ended it, if one did. *)
Definition generator (A : Type) : Type := (list A * option exn)%type.

Definition yield {A} (a : A) (g : generator A) : generator A :=
  (a :: fst g, snd g).

Definition raising {A} (e : exn) : generator A := ([], Some e).

(** [list(g)]: the exception of the generator is the exception of the call. *)
Definition list_of {A} (g : generator A) : result (list A) :=
  match snd g with
  | None => Ok (fst g)
  | Some e => Raise e
  end.

(** [tarfile.TarInfo], as far as the loop reads it. *)
Record TarInfo := {
  name : str;
  isfile : bool
}.

Section Search.

Variable U : unicode_db.

(** [re.search(r'nipstxt/nips\d+/\d+\.txt', s)].  Every [\d+] is followed
    in the pattern by a character that is no digit, so the greedy match of the
    digits is the only one to try. *)
Fixpoint strip_prefix (p s : str) : option str :=
  match p, s with
  | [], _ => Some s
  | _ :: _, [] => None
  | a :: p', b :: s' => if (a =? b)%N then strip_prefix p' s' else None
  end.

Fixpoint skip_digits (s : str) : str :=
  match s with
  | c :: s' => if Str.is_decimal_char U c then skip_digits s' else s
  | [] => []
  end.

Definition digits1 (s : str) : option str :=
  match s with
  | c :: s' => if Str.is_decimal_char U c then Some (skip_digits s') else None
  | [] => None
  end.

Definition match_here (s : str) : bool :=
  match strip_prefix (of_string "nipstxt/nips") s with
  | None => false
  | Some s1 =>
      match digits1 s1 with
      | None => false
      | Some s2 =>
          match strip_prefix (of_string "/") s2 with
          | None => false
          | Some s3 =>
              match digits1 s3 with
              | None => false
              | Some s4 =>
                  match strip_prefix (of_string ".txt") s4 with
                  | None => false
                  | Some _ => true
                  end
              end
          end
      end
  end.

Fixpoint re_search (s : str) : bool :=
  match_here s ||
  match s with
  | [] => false
  | _ :: s' => re_search s'
  end.

Definition selected (member : TarInfo) : bool :=
  isfile member && re_search (name member).

End Search.

(** The network and the archive reader are the environment of the function:
    each call returns or raises. *)
Section Environment.

Variable U : unicode_db.
Variables file tar : Type.
Variable smart_open_open : str -> result file.
Variable tarfile_open : file -> result tar.
Variable getmembers : tar -> result (list TarInfo).
(** [tar.extractfile(member).read()] *)
Variable extractfile_read : tar -> TarInfo -> result (list byte).

Fixpoint members_loop (t : tar) (members : list TarInfo) : generator str :=
  match members with
  | [] => ([], None)
  | member :: rest =>
      if selected U member then
        match extractfile_read t member with
        | Raise e => raising e
        | Ok member_bytes =>
            match Utf8.decode Utf8.Replace member_bytes with
            | Raise e => raising e
            | Ok text => yield text (members_loop t rest)
            end
        end
      else members_loop t rest
  end.

Definition extract_documents (url : str) : generator str :=
  match smart_open_open url with
  | Raise e => raising e
  | Ok f =>
      match tarfile_open f with
      | Raise e => raising e
      | Ok t =>
          match getmembers t with
          | Raise e => raising e
          | Ok members => members_loop t members
          end
      end
  end.

Definition default_url : str :=
  of_string "https://cs.nyu.edu/~roweis/data/nips12raw_str602.tgz".

(** [docs = list(extract_documents())] *)
Definition docs : result (list str) := list_of (extract_documents default_url).

End Environment.

End Acquire.

(** ** Lists updated in place, [for] loops *)

Definition getitem {A} (l : list A) (idx : nat) : result A :=
  match l !! idx with
  | Some x => Ok x
  | None => Raise IndexError
  end.

Definition setitem {A} (l : list A) (idx : nat) (x : A) : result (list A) :=
  if idx <? length l then Ok (<[idx:=x]> l) else Raise IndexError.

(** [for x in xs: body], the loop state threaded through; an exception in
    the body leaves the loop. *)
Fixpoint for_each {S X} (body : S -> X -> result S) (xs : list X) (st : S)
  : result S :=
  match xs with
  | [] => Ok st
  | x :: rest => let! st' := body st x in for_each body rest st'
  end.

(** [range(n)] *)
Definition range (n : nat) : list nat := seq 0 n.

(** ** The lemmatizer *)

Module WordNet.

(** Modelled from the spec: [WordNetLemmatizer.lemmatize] belongs to the
    lexical library, which the notebook only calls.  It is a lookup in a fixed
    lexicon that gives the canonical base form of the tokens it knows; a token
    the lexicon does not know is passed through. *)
Definition lemmatize (lexicon : gmap (list N) (list N)) (token : str) : str :=
  match lexicon !! token with
  | Some base => base
  | None => token
  end.

End WordNet.

(** ** The phrase detector *)

Module Phrases.

(** Modelled from the spec: [gensim.models.Phrases] is not in the notebook.
    The spec gives its contract: it is trained once over the whole corpus,
    it promotes pairs of adjacent tokens by their corpus-wide count, and,
    applied to a token sequence, it gives the promoted pairs as the two
    tokens joined with an underscore.  The count alone does not decide in
    the library that the notebook calls: with the defaults of the call the
    vocabulary holds the count of every token and, under the joined key, of
    every pair of adjacent tokens; a pair is a phrase when both tokens and
    the joined key are in the vocabulary and the score
    [(bigram_count - min_count) / worda_count / wordb_count * len_vocab]
    is above the threshold 10.0.  The score is a binary64 number. *)
Record t := {
  min_count : nat;
  vocab : gmap (list N) nat
}.

Definition count_of (v : gmap (list N) nat) (key : str) : nat :=
  match v !! key with
  | Some n => n
  | None => 0
  end.

Definition add_count (v : gmap (list N) nat) (key : str) : gmap (list N) nat :=
  <[key := S (count_of v key)]> v.

Definition join (a b : str) : str := a ++ Str.underscore :: b.

(** One sentence: every token, and every token with the one before it.
    [start] is the token before. *)
Fixpoint learn_sentence (v : gmap (list N) nat) (start : option (list N))
  (sentence : list str) : gmap (list N) nat :=
  match sentence with
  | [] => v
  | word :: rest =>
      let v := add_count v word in
      let v :=
        match start with
        | Some s => add_count v (join s word)
        | None => v
        end in
      learn_sentence v (Some word) rest
  end.

(** The vocabulary is pruned when it has more than [max_vocab_size] keys:
    the keys counted less than [min_reduce] times go. *)
Definition max_vocab_size : N := 40000000.

Definition prune_vocab (v : gmap (list N) nat) (min_reduce : nat)
  : gmap (list N) nat :=
  filter (fun kv => min_reduce <= kv.2) v.

Definition learn_step (st : gmap (list N) nat * nat) (sentence : list str)
  : gmap (list N) nat * nat :=
  let v := learn_sentence st.1 None sentence in
  if (max_vocab_size <? N.of_nat (size v))%N
  then (prune_vocab v st.2, S st.2)
  else (v, st.2).

Definition learn_vocab (docs : list (list str)) : gmap (list N) nat :=
  (foldl learn_step (∅, 1) docs).1.

(** Modelled from the spec: [Phrases(docs, min_count=...)], the training
    over the whole corpus. *)
Definition train (docs : list (list str)) (min_count : nat) : t :=
  {| min_count := min_count; vocab := learn_vocab docs |}.

(** Binary64 arithmetic on counts. *)
Definition of_int (z : Z) : spec_float := binary_normalize 53 1024 z 0 false.
Definition truediv (x y : spec_float) : spec_float := SFdiv 53 1024 x y.
Definition mul (x y : spec_float) : spec_float := SFmul 53 1024 x y.

(** [threshold=10.0] *)
Definition threshold : spec_float := of_int 10.

Definition original_scorer
  (worda_count wordb_count bigram_count len_vocab min_count : nat)
  : spec_float :=
  mul (truediv
         (truediv (of_int (Z.of_nat bigram_count - Z.of_nat min_count))
                  (of_int (Z.of_nat worda_count)))
         (of_int (Z.of_nat wordb_count)))
      (of_int (Z.of_nat len_vocab)).

(** The phrase token of the pair, when the pair is a phrase.  (The score of
    counted tokens is a number, so that "above the threshold" and "not at or
    below it" are the same test.) *)
Definition score_candidate (p : t) (a b : str) : option (list N) :=
  let worda_count := count_of (vocab p) a in
  if worda_count =? 0 then None else
  let wordb_count := count_of (vocab p) b in
  if wordb_count =? 0 then None else
  let phrase := join a b in
  let bigram_count := count_of (vocab p) phrase in
  if bigram_count =? 0 then None else
  if SFltb threshold
       (original_scorer worda_count wordb_count bigram_count
          (size (vocab p)) (min_count p))
  then Some phrase
  else None.

(** Modelled from the spec: the pair is promoted to a phrase. *)
Definition promoted (p : t) (a b : str) : bool :=
  match score_candidate p a b with
  | Some _ => true
  | None => false
  end.

(** A token can start a pair unless it is the empty string. *)
Definition start_of (word : str) : option (list N) :=
  match word with
  | [] => None
  | _ :: _ => Some word
  end.

Fixpoint analyze_sentence (p : t) (start : option (list N))
  (sentence : list str) : list str :=
  match sentence with
  | [] =>
      match start with
      | Some s => [s]
      | None => []
      end
  | word :: rest =>
      match start with
      | Some s =>
          if promoted p s word then join s word :: analyze_sentence p None rest
          else s :: analyze_sentence p (start_of word) rest
      | None => analyze_sentence p (start_of word) rest
      end
  end.

(** Modelled from the spec: [bigram[doc]], the detector applied to the token
    sequence of a document.  The result is a new sequence; the document is
    not read again once it is returned. *)
Definition transform (p : t) (doc : list str) : list str :=
  analyze_sentence p None doc.

(** The pairs that [transform] substitutes in a document. *)
Fixpoint substituted_from (p : t) (start : option (list N))
  (sentence : list str) : list (list N * list N) :=
  match sentence with
  | [] => []
  | word :: rest =>
      match start with
      | Some s =>
          if promoted p s word then (s, word) :: substituted_from p None rest
          else substituted_from p (start_of word) rest
      | None => substituted_from p (start_of word) rest
      end
  end.

Definition substituted (p : t) (doc : list str) : list (list N * list N) :=
  substituted_from p None doc.

(** The number of places where [a] is followed by [b], in a document and in
    a corpus. *)
Fixpoint adjacent_count (a b : str) (doc : list str) : nat :=
  match doc with
  | [] => 0
  | x :: tl =>
      match tl with
      | [] => 0
      | y :: _ =>
          (if bool_decide (x = a ∧ y = b) then 1 else 0) + adjacent_count a b tl
      end
  end.

Definition corpus_count (a b : str) (docs : list (list str)) : nat :=
  foldr (fun doc n => adjacent_count a b doc + n) 0 docs.

End Phrases.

(** ** Pre-processing: tokens, filters, lemmas, bigrams *)

Module Preprocess.

(** An element of [docs] while the tokenising loop runs: still the text, or
    already the list of its tokens. *)
Inductive doc_value :=
| Text (s : str)
| Tokens (l : list str).

(** [v.lower()] exists on a string only. *)
Definition receiver_str (v : doc_value) : result str :=
  match v with
  | Text s => Ok s
  | Tokens _ => Raise AttributeError
  end.

(** [re.findall] takes a string only. *)
Definition pattern_arg (v : doc_value) : result str :=
  match v with
  | Text s => Ok s
  | Tokens _ => Raise TypeError
  end.

(** [for token in doc]: a list gives its elements, a string its characters. *)
Definition iterate (v : doc_value) : list str :=
  match v with
  | Text s => map (fun c => [c]) s
  | Tokens l => l
  end.

Section Stages.

Variable U : unicode_db.
Variable lexicon : gmap (list N) (list N).

(** The body of the tokenising loop:
    [docs[idx] = docs[idx].lower()], [docs[idx] = tokenizer.tokenize(docs[idx])]. *)
Definition tokenize_body (docs : list doc_value) (idx : nat)
  : result (list doc_value) :=
  let! v := getitem docs idx in
  let! s := receiver_str v in
  let! docs := setitem docs idx (Text (Str.lower U s)) in
  let! v := getitem docs idx in
  let! s := pattern_arg v in
  setitem docs idx (Tokens (Str.tokenize U s)).

Definition tokenize_docs (docs : list str) : result (list doc_value) :=
  let docs := map Text docs in
  for_each tokenize_body (range (length docs)) docs.

(** [[[token for token in doc if not token.isnumeric()] for doc in docs]] *)
Definition remove_numbers (docs : list doc_value) : list (list str) :=
  map (fun doc => List.filter (fun token => negb (Str.isnumeric U token)) (iterate doc))
      docs.

(** [[[token for token in doc if len(token) > 1] for doc in docs]] *)
Definition remove_single_chars (docs : list (list str)) : list (list str) :=
  map (fun doc => List.filter (fun token => 1 <? length token) doc) docs.

(** The whole of the tokenising cell. *)
Definition tokenize_and_filter (docs : list str) : result (list (list str)) :=
  let! docs := tokenize_docs docs in
  Ok (remove_single_chars (remove_numbers docs)).

(** [[[lemmatizer.lemmatize(token) for token in doc] for doc in docs]] *)
Definition lemmatize_docs (docs : list (list str)) : list (list str) :=
  map (fun doc => map (WordNet.lemmatize lexicon) doc) docs.

(** The bigram loop.  [bigram[docs[idx]]] is evaluated once, on the document
    as it is when the inner loop starts; [docs[idx].append(token)] changes the
    list stored at [idx]. *)
Definition append_token (idx : nat) (docs : list (list str)) (token : str)
  : result (list (list str)) :=
  if Str.contains Str.underscore token then
    let! doc := getitem docs idx in
    setitem docs idx (doc ++ [token])
  else Ok docs.

Definition bigram_body (bigram : list str -> list str)
  (docs : list (list str)) (idx : nat) : result (list (list str)) :=
  let! doc := getitem docs idx in
  for_each (append_token idx) (bigram doc) docs.

Definition add_bigrams_with (bigram : list str -> list str)
  (docs : list (list str)) : result (list (list str)) :=
  for_each (bigram_body bigram) (range (length docs)) docs.

(** [bigram = Phrases(docs, min_count=20)] and the loop. *)
Definition add_bigrams (docs : list (list str)) : result (list (list str)) :=
  let bigram := Phrases.train docs 20 in
  add_bigrams_with (Phrases.transform bigram) docs.

(** What the loop does to one document. *)
Definition augmented (bigram : list str -> list str) (doc : list str)
  : list str :=
  doc ++ List.filter (Str.contains Str.underscore) (bigram doc).

(** Cells 8 to 12 in a row. *)
Definition preprocess (docs : list str) : result (list (list str)) :=
  let! docs := tokenize_and_filter docs in
  add_bigrams (lemmatize_docs docs).

End Stages.

End Preprocess.

(** ** The dictionary *)

Module Dictionary.

(** Modelled from the spec: [gensim.corpora.Dictionary] is not in the
    notebook.  It reads the corpus once, gives every distinct token an integer
    id in the order the tokens are first seen and keeps the document frequency
    of every token; [filter_extremes] removes the tokens whose document
    frequency is below [no_below] or above the fraction [no_above] of the
    number of documents (the call that the notebook makes also has the
    default [keep_n=100000] and numbers the ids anew, see [filter_extremes]
    below);
    [doc2bow] counts the tokens of a document that the dictionary knows. *)
Record t := {
  token2id : gmap (list N) nat;
  dfs : gmap (list N) nat;
  num_docs : nat
}.

Definition empty : t := {| token2id := ∅; dfs := ∅; num_docs := 0 |}.

Definition add_token (ids : gmap (list N) nat) (token : str)
  : gmap (list N) nat :=
  match ids !! token with
  | Some _ => ids
  | None => <[token := size ids]> ids
  end.

Definition df_of (d : gmap (list N) nat) (token : str) : nat :=
  match d !! token with
  | Some n => n
  | None => 0
  end.

Definition bump (d : gmap (list N) nat) (token : str) : gmap (list N) nat :=
  <[token := S (df_of d token)]> d.

Definition add_document (d : t) (doc : list str) : t :=
  {| token2id := foldl add_token (token2id d) doc;
     dfs := foldl bump (dfs d) (remove_dups doc);
     num_docs := S (num_docs d) |}.

(** Modelled from the spec: [Dictionary(docs)]. *)
Definition build (docs : list (list str)) : t := foldl add_document empty docs.

Definition keep (no_below : nat) (no_above : Q) (d : t) (token : str) : bool :=
  let df := df_of (dfs d) token in
  (no_below <=? df) &&
  Qle_bool (inject_Z (Z.of_nat df)) (no_above * inject_Z (Z.of_nat (num_docs d))).

(** A stable insertion sort: [le x y] puts [x] before [y]. *)
Fixpoint insert_by {A} (le : A -> A -> bool) (x : A) (l : list A) : list A :=
  match l with
  | [] => [x]
  | y :: l' => if le x y then x :: l else y :: insert_by le x l'
  end.

Definition sort_by {A} (le : A -> A -> bool) (l : list A) : list A :=
  foldr (insert_by le) [] l.

Definition by_id (x y : list N * nat) : bool := x.2 <=? y.2.

(** [keep_n=100000], the default of the call. *)
Definition default_keep_n : nat := N.to_nat 100000.

(** The tokens within the bounds, in the order of their ids. *)
Definition good (no_below : nat) (no_above : Q) (d : t) : list (list N * nat) :=
  List.filter (fun kv => keep no_below no_above d kv.1)
    (sort_by by_id (map_to_list (token2id d))).

(** The tokens that stay, with their old ids: of the tokens within the
    bounds the [keep_n] of the highest document frequency (the earlier ids
    first among equals), in the order of the old ids. *)
Definition kept (no_below : nat) (no_above : Q) (keep_n : nat) (d : t)
  : list (list N * nat) :=
  let most_frequent :=
    sort_by (fun x y => df_of (dfs d) y.1 <=? df_of (dfs d) x.1)
      (good no_below no_above d) in
  sort_by by_id (take keep_n most_frequent).

(** Modelled from the spec: [dictionary.filter_extremes(no_below, no_above)].
    The spec gives the two bounds.  The library call has a third argument,
    [keep_n], with the default 100000: of the tokens within the bounds only
    the [keep_n] most frequent stay; and the ids of the tokens that stay are
    renumbered without gaps, in the order of the old ids. *)
Definition filter_extremes (no_below : nat) (no_above : Q) (keep_n : nat)
  (d : t) : t :=
  let tokens := (kept no_below no_above keep_n d).*1 in
  {| token2id := list_to_map (zip tokens (seq 0 (length tokens)));
     dfs := filter (fun kv => kv.1 ∈ tokens) (dfs d);
     num_docs := num_docs d |}.

Definition count_id (counter : gmap nat nat) (id : nat) : nat :=
  match counter !! id with
  | Some n => n
  | None => 0
  end.

Definition count_token (d : t) (counter : gmap nat nat) (token : str)
  : gmap nat nat :=
  match token2id d !! token with
  | Some id => <[id := S (count_id counter id)]> counter
  | None => counter
  end.

(** Modelled from the spec: [dictionary.doc2bow(doc)], the pairs of an id and
    its count, in no particular order. *)
Definition doc2bow (d : t) (doc : list str) : list (nat * nat) :=
  map_to_list (foldl (count_token d) ∅ doc).

(** The number of documents that contain the token. *)
Definition doc_freq (token : str) (docs : list (list str)) : nat :=
  length (List.filter (fun doc => bool_decide (token ∈ doc)) docs).

(** The tokens of a document that the dictionary knows. *)
Definition known (d : t) (token : str) : bool :=
  bool_decide (is_Some (token2id d !! token)).

End Dictionary.

(** ** Vectorisation and the report *)

Module Vectorize.

(** [dictionary = Dictionary(docs)],
    [dictionary.filter_extremes(no_below=20, no_above=0.5)], with the
    default [keep_n] *)
Definition dictionary (docs : list (list str)) : Dictionary.t :=
  Dictionary.filter_extremes 20 (1 # 2) Dictionary.default_keep_n
    (Dictionary.build docs).

(** [[dictionary.doc2bow(doc) for doc in docs]] *)
Definition corpus (docs : list (list str)) : list (list (nat * nat)) :=
  let d := dictionary docs in
  map (fun doc => Dictionary.doc2bow d doc) docs.

End Vectorize.

Module Report.


(** The coherence scores are floats; [sum] over a list of floats and the
    division of a float by an integer are the interpreter's. *)
Section Floats.

Variable float : Type.
Variable sum : list float -> float.
Variable truediv : float -> Z -> float.




End Floats.

End Report.

(** * Properties *)

(** ** Loops over the indices of a list *)

Lemma getitem_middle {A} (done rest : list A) (x : A) :
  getitem (done ++ x :: rest) (length done) = Ok x.
Proof.
  unfold getitem. by rewrite list_lookup_middle.
Qed.

Lemma setitem_middle {A} (done rest : list A) (x y : A) :
  setitem (done ++ x :: rest) (length done) y = Ok (done ++ y :: rest).
Proof.
  unfold setitem.
  assert (Hlt : length done < length (done ++ x :: rest)).
  { rewrite length_app. simpl. lia. }
  apply Nat.ltb_lt in Hlt. rewrite Hlt. f_equal.
  replace (length done) with (length done + 0) by lia.
  by rewrite insert_app_r.
Qed.

(** A loop whose body rewrites the element at its index, and nothing else,
    is a [map] over the list. *)
Lemma for_each_range_map {A} (body : list A -> nat -> result (list A))
  (f : A -> A) (P : A -> Prop) :
  (forall done x rest, P x ->
     body (done ++ x :: rest) (length done) = Ok (done ++ f x :: rest)) ->
  forall l, Forall P l -> for_each body (range (length l)) l = Ok (map f l).
Proof.
  intros Hbody l Hl. unfold range.
  enough (Hgen : forall rest done, Forall P rest ->
            for_each body (seq (length done) (length rest)) (done ++ rest)
            = Ok (done ++ map f rest)).
  { apply (Hgen l []). exact Hl. }
  clear l Hl. induction rest as [|x rest IH]; intros done Hrest.
  - simpl. reflexivity.
  - inversion Hrest as [|? ? Hx Hrest']; subst.
    simpl. rewrite Hbody by exact Hx. simpl.
    specialize (IH (done ++ [f x]) Hrest').
    rewrite length_app in IH. simpl in IH.
    replace (length done + 1) with (S (length done)) in IH by lia.
    rewrite <- !app_assoc in IH. simpl in IH. exact IH.
Qed.

Lemma lookup_map {A B} (f : A -> B) (l : list A) (i : nat) :
  map f l !! i = f <$> (l !! i).
Proof.
  revert i. induction l as [|x l IH]; intros [|i]; simpl; auto.
Qed.

(** ** The tokenising cell *)

Section PreprocessFacts.

Variable U : unicode_db.
Variable lexicon : gmap (list N) (list N).

Definition tokens_of (s : str) : list str := Str.tokenize U (Str.lower U s).

Lemma tokenize_body_middle done s rest :
  Preprocess.tokenize_body U (done ++ Preprocess.Text s :: rest) (length done)
  = Ok (done ++ Preprocess.Tokens (tokens_of s) :: rest).
Proof.
  unfold Preprocess.tokenize_body.
  rewrite getitem_middle. simpl.
  rewrite setitem_middle. simpl.
  rewrite getitem_middle. simpl.
  apply setitem_middle.
Qed.

Definition tokenized (v : Preprocess.doc_value) : Preprocess.doc_value :=
  match v with
  | Preprocess.Text s => Preprocess.Tokens (tokens_of s)
  | Preprocess.Tokens l => Preprocess.Tokens l
  end.

Definition is_text (v : Preprocess.doc_value) : Prop :=
  exists s, v = Preprocess.Text s.

Lemma tokenize_docs_map (docs : list str) :
  Preprocess.tokenize_docs U docs
  = Ok (map (fun s => Preprocess.Tokens (tokens_of s)) docs).
Proof.
  unfold Preprocess.tokenize_docs.
  rewrite (for_each_range_map (Preprocess.tokenize_body U) tokenized is_text).
  - f_equal. rewrite map_map. reflexivity.
  - intros done x rest [s ->]. apply tokenize_body_middle.
  - apply Forall_forall. intros v Hv.
    apply list_elem_of_In, in_map_iff in Hv.
    destruct Hv as [s [<- _]]. by exists s.
Qed.

(** What the cell leaves of one document. *)
Definition clean_tokens (s : str) : list str :=
  List.filter (fun token => 1 <? length token)
    (List.filter (fun token => negb (Str.isnumeric U token)) (tokens_of s)).

Lemma tokenize_and_filter_map (docs : list str) :
  Preprocess.tokenize_and_filter U docs = Ok (map clean_tokens docs).
Proof.
  unfold Preprocess.tokenize_and_filter.
  rewrite tokenize_docs_map. simpl. f_equal.
  unfold Preprocess.remove_single_chars, Preprocess.remove_numbers.
  rewrite !map_map. reflexivity.
Qed.

Lemma clean_tokens_spec (s token : str) :
  In token (clean_tokens s) ->
  2 <= length token /\ Str.isnumeric U token = false.
Proof.
  unfold clean_tokens. intros Hin.
  apply filter_In in Hin. destruct Hin as [Hin Hlen].
  apply filter_In in Hin. destruct Hin as [_ Hnum].
  split.
  - apply Nat.ltb_lt in Hlen. lia.
  - by apply negb_true_iff in Hnum.
Qed.

End PreprocessFacts.

(** C3: whatever the raw documents are, the tokenising cell (lower-casing,
    [\w+] tokens, the numeric filter, the single-character filter) returns,
    and every token of every document it returns has at least two characters
    and is not numeric. *)
Theorem tokenize_and_filter_tokens (U : unicode_db) (docs : list str) :
  exists out,
    Preprocess.tokenize_and_filter U docs = Ok out /\
    out = map (clean_tokens U) docs /\
    Forall (Forall (fun token =>
                      2 <= length token /\ Str.isnumeric U token = false)) out.
Proof.
  exists (map (clean_tokens U) docs).
  split; [apply tokenize_and_filter_map|]. split; [reflexivity|].
  apply Forall_forall. intros doc Hdoc.
  apply list_elem_of_In, in_map_iff in Hdoc. destruct Hdoc as [s [<- _]].
  apply Forall_forall. intros token Htoken.
  apply (clean_tokens_spec U s). by apply list_elem_of_In.
Qed.

(** ** The bigram loop *)

Lemma append_tokens_middle (tokens : list str) :
  forall (done : list (list str)) (doc : list str) (rest : list (list str)),
    for_each (Preprocess.append_token (length done)) tokens (done ++ doc :: rest)
    = Ok (done ++ (doc ++ List.filter (Str.contains Str.underscore) tokens) :: rest).
Proof.
  induction tokens as [|token tokens IH]; intros done doc rest; simpl.
  - by rewrite app_nil_r.
  - unfold Preprocess.append_token at 1.
    destruct (Str.contains Str.underscore token); simpl.
    + rewrite getitem_middle. simpl. rewrite setitem_middle. simpl.
      rewrite IH. by rewrite <- app_assoc.
    + apply IH.
Qed.

Lemma bigram_body_middle (bigram : list str -> list str) done doc rest :
  Preprocess.bigram_body bigram (done ++ doc :: rest) (length done)
  = Ok (done ++ Preprocess.augmented bigram doc :: rest).
Proof.
  unfold Preprocess.bigram_body. rewrite getitem_middle. simpl.
  apply append_tokens_middle.
Qed.

Lemma add_bigrams_with_map (bigram : list str -> list str) docs :
  Preprocess.add_bigrams_with bigram docs
  = Ok (map (Preprocess.augmented bigram) docs).
Proof.
  unfold Preprocess.add_bigrams_with.
  apply (for_each_range_map _ _ (fun _ => True)).
  - intros done doc rest _. apply bigram_body_middle.
  - apply Forall_forall. done.
Qed.

(** ** Every stage works document by document *)

(** [output] has as many documents as [input], and the document at each
    position is [f] of the document of [input] at that position. *)
Definition positionwise {A B} (f : A -> B) (input : list A) (output : list B)
  : Prop :=
  length output = length input /\
  forall i x, input !! i = Some x -> output !! i = Some (f x).

Lemma positionwise_map {A B} (f : A -> B) (l : list A) :
  positionwise f l (map f l).
Proof.
  split.
  - apply length_map.
  - intros i x Hx. rewrite lookup_map, Hx. reflexivity.
Qed.

Lemma positionwise_length {A B} (f : A -> B) input output :
  positionwise f input output -> length output = length input.
Proof. by intros [Hlen _]. Qed.

(** C10: the tokenising loop, the two filters, the lemmatising comprehension,
    the bigram loop and the bag-of-words comprehension each return a corpus
    with as many documents as they were given, in which the document at every
    position is computed from the document that was at that position. *)
Theorem stages_preserve_documents (U : unicode_db)
  (lexicon : gmap (list N) (list N)) (raw : list str) :
  exists tokenized cleaned augmented,
    let numbers_removed := Preprocess.remove_numbers U tokenized in
    let lemmatized := Preprocess.lemmatize_docs lexicon cleaned in
    let bigram := Phrases.train lemmatized 20 in
    let dictionary := Vectorize.dictionary augmented in
    Preprocess.tokenize_docs U raw = Ok tokenized /\
    positionwise (fun s => Preprocess.Tokens (tokens_of U s)) raw tokenized /\
    positionwise
      (fun doc => List.filter (fun token => negb (Str.isnumeric U token))
                    (Preprocess.iterate doc))
      tokenized numbers_removed /\
    positionwise (List.filter (fun token => 1 <? length token))
      numbers_removed cleaned /\
    Preprocess.tokenize_and_filter U raw = Ok cleaned /\
    positionwise (map (WordNet.lemmatize lexicon)) cleaned lemmatized /\
    Preprocess.add_bigrams lemmatized = Ok augmented /\
    positionwise (Preprocess.augmented (Phrases.transform bigram))
      lemmatized augmented /\
    Preprocess.preprocess U lexicon raw = Ok augmented /\
    positionwise (Dictionary.doc2bow dictionary) augmented
      (Vectorize.corpus augmented) /\
    length (Vectorize.corpus augmented) = length raw.
Proof.
  set (tokenized := map (fun s => Preprocess.Tokens (tokens_of U s)) raw).
  set (cleaned :=
         Preprocess.remove_single_chars (Preprocess.remove_numbers U tokenized)).
  set (lemmatized := Preprocess.lemmatize_docs lexicon cleaned).
  set (augmented :=
         map (Preprocess.augmented
                (Phrases.transform (Phrases.train lemmatized 20))) lemmatized).
  assert (Htok : Preprocess.tokenize_docs U raw = Ok tokenized)
    by apply tokenize_docs_map.
  assert (Hclean : Preprocess.tokenize_and_filter U raw = Ok cleaned).
  { unfold Preprocess.tokenize_and_filter. rewrite Htok. reflexivity. }
  assert (Hbig : Preprocess.add_bigrams lemmatized = Ok augmented)
    by apply add_bigrams_with_map.
  exists tokenized, cleaned, augmented. cbv zeta.
  repeat match goal with |- _ /\ _ => split end;
    try assumption; try apply positionwise_map.
  - unfold Preprocess.preprocess. rewrite Hclean. simpl. exact Hbig.
  - unfold Vectorize.corpus, augmented, lemmatized, cleaned, tokenized.
    unfold Preprocess.lemmatize_docs, Preprocess.remove_single_chars,
      Preprocess.remove_numbers.
    by rewrite !length_map.
Qed.

(** ** What the bigram loop appends *)


Lemma lookup_prefix {A} (l k : list A) (j : nat) (x : A) :
  l !! j = Some x -> (l ++ k) !! j = Some x.
Proof. intros Hj. by apply lookup_app_l_Some. Qed.

(** The loop only extends each document at its end, by the tokens of
    [bigram[doc]] that contain an underscore. *)
Lemma bigram_loop_extends_documents (docs : list (list str)) :
  let bigram := Phrases.train docs 20 in
  exists out,
    Preprocess.add_bigrams docs = Ok out /\
    length out = length docs /\
    forall i doc, docs !! i = Some doc ->
      exists doc',
        out !! i = Some doc' /\
        doc `prefix_of` doc' /\
        (forall j token, doc !! j = Some token -> doc' !! j = Some token) /\
        drop (length doc) doc'
        = List.filter (Str.contains Str.underscore) (Phrases.transform bigram doc).
Proof.
  intros bigram.
  exists (map (Preprocess.augmented (Phrases.transform bigram)) docs).
  split; [apply add_bigrams_with_map|].
  split; [apply length_map|].
  intros i doc Hdoc.
  exists (Preprocess.augmented (Phrases.transform bigram) doc).
  split; [by rewrite lookup_map, Hdoc|].
  unfold Preprocess.augmented.
  split; [by eexists|].
  split; [intros j token Hj; by apply lookup_prefix|].
  by rewrite drop_app_length.
Qed.

(** ** The score of a pair that is not counted above the minimum *)

(** Zero, a negative number, or no number. *)
Definition not_positive (x : spec_float) : Prop :=
  match x with
  | S754_nan | S754_zero _ => True
  | S754_infinity s | S754_finite s _ _ => s = true
  end.

(** With the given sign, or no number. *)
Definition signed (s : bool) (x : spec_float) : Prop :=
  match x with
  | S754_nan => True
  | S754_zero s' | S754_infinity s' | S754_finite s' _ _ => s' = s
  end.

Lemma binary_round_aux_signed (s : bool) (m e : Z) (l : location) :
  signed s (binary_round_aux 53 1024 s m e l).
Proof.
  unfold binary_round_aux.
  destruct (shr_fexp 53 1024 m e l) as [mrs' e'].
  destruct (shr_fexp 53 1024 _ e' loc_Exact) as [mrs'' e''].
  destruct (shr_m mrs''); [reflexivity | | exact I].
  destruct (Z.leb e'' (Z.sub 1024 53)); reflexivity.
Qed.

Lemma binary_round_signed (s : bool) (m : positive) (e : Z) :
  signed s (binary_round 53 1024 s m e).
Proof.
  unfold binary_round. destruct (shl_align _ _ _) as [mz ez].
  apply binary_round_aux_signed.
Qed.

Lemma signed_true_not_positive (x : spec_float) :
  signed true x -> not_positive x.
Proof. destruct x; simpl; auto. Qed.

Lemma of_int_not_positive (z : Z) :
  (z <= 0)%Z -> not_positive (Phrases.of_int z).
Proof.
  intros Hz. destruct z as [|p|p]; [exact I | lia |].
  apply signed_true_not_positive, binary_round_signed.
Qed.

Lemma of_int_signed (n : nat) : signed false (Phrases.of_int (Z.of_nat n)).
Proof.
  destruct (Z.of_nat n) as [|p|p] eqn:Hn; [reflexivity | | lia].
  apply binary_round_signed.
Qed.

Lemma truediv_not_positive (x y : spec_float) :
  not_positive x -> signed false y -> not_positive (Phrases.truediv x y).
Proof.
  intros Hx Hy. unfold Phrases.truediv.
  destruct x as [sx|sx| |sx mx ex], y as [sy|sy| |sy my ey];
    simpl in Hx, Hy; subst; try exact I; try reflexivity.
  unfold SFdiv. destruct (SFdiv_core_binary _ _ _ _ _ _) as [[mz ez] lz].
  apply signed_true_not_positive, binary_round_aux_signed.
Qed.

Lemma mul_not_positive (x y : spec_float) :
  not_positive x -> signed false y -> not_positive (Phrases.mul x y).
Proof.
  intros Hx Hy. unfold Phrases.mul.
  destruct x as [sx|sx| |sx mx ex], y as [sy|sy| |sy my ey];
    simpl in Hx, Hy; subst; try exact I; try reflexivity.
  apply signed_true_not_positive. apply binary_round_aux_signed.
Qed.

Lemma not_positive_below_threshold (x : spec_float) :
  not_positive x -> SFltb Phrases.threshold x = false.
Proof.
  intros Hx. destruct x as [s|s| |s m e]; simpl in Hx; subst; reflexivity.
Qed.

Lemma score_at_most_min_count (wa wb bc len mc : nat) :
  bc <= mc ->
  SFltb Phrases.threshold (Phrases.original_scorer wa wb bc len mc) = false.
Proof.
  intros Hbc. apply not_positive_below_threshold.
  unfold Phrases.original_scorer.
  apply mul_not_positive; [|apply of_int_signed].
  apply truediv_not_positive; [|apply of_int_signed].
  apply truediv_not_positive; [|apply of_int_signed].
  apply of_int_not_positive. lia.
Qed.

(** A promoted pair is counted above the minimum under its joined key, and
    both its tokens are in the vocabulary. *)
Lemma promoted_counts (p : Phrases.t) (a b : str) :
  Phrases.promoted p a b = true ->
  Phrases.min_count p < Phrases.count_of (Phrases.vocab p) (Phrases.join a b)
  /\ 0 < Phrases.count_of (Phrases.vocab p) a
  /\ 0 < Phrases.count_of (Phrases.vocab p) b.
Proof.
  unfold Phrases.promoted, Phrases.score_candidate. cbv zeta.
  destruct (Nat.eqb_spec (Phrases.count_of (Phrases.vocab p) a) 0);
    [discriminate|].
  destruct (Nat.eqb_spec (Phrases.count_of (Phrases.vocab p) b) 0);
    [discriminate|].
  destruct (Nat.eqb_spec
              (Phrases.count_of (Phrases.vocab p) (Phrases.join a b)) 0);
    [discriminate|].
  destruct (SFltb _ _) eqn:Hscore; [|discriminate]. intros _.
  split; [|lia].
  destruct (le_lt_dec
              (Phrases.count_of (Phrases.vocab p) (Phrases.join a b))
              (Phrases.min_count p)) as [Hle|Hlt]; [|exact Hlt].
  rewrite score_at_most_min_count in Hscore by exact Hle. discriminate.
Qed.

(** ** The vocabulary count of a pair of tokens without underscores *)















(** Corpora of 19, of 20 and of 40 documents [ab cd]; the last with one
    more document of 400 other tokens. *)
Definition pair_doc : list str := [of_string "ab"; of_string "cd"].

Definition other_token (i : nat) : list N :=
  120%N :: map (fun d => (97 + N.of_nat d)%N)
             [i / 26 / 26; (i / 26) mod 26; i mod 26].

Definition forty_docs : list (list str) :=
  repeat pair_doc 40 ++ [map other_token (seq 0 400)].



(** A pair that is promoted: 40 occurrences among 802 keys give the score
    20 / 40 / 40 * 802 = 10.025. *)
Example pair_seen_forty_times_is_promoted :
  Phrases.corpus_count (of_string "ab") (of_string "cd") forty_docs = 40 /\
  size (Phrases.vocab (Phrases.train forty_docs 20)) = 802 /\
  Phrases.promoted (Phrases.train forty_docs 20)
    (of_string "ab") (of_string "cd") = true /\
  Phrases.transform (Phrases.train forty_docs 20) pair_doc
  = [of_string "ab_cd"].
Proof. vm_compute. repeat split. Qed.

(** ** A corpus of one token with an underscore *)

Lemma no_pair_in_single_token (a b : str) :
  Phrases.promoted (Phrases.train [[of_string "a_b"]] 20) a b = false.
Proof.
  apply not_true_is_false. intros Hp.
  apply promoted_counts in Hp as [Hp _].
  change (Phrases.vocab (Phrases.train [[of_string "a_b"]] 20))
    with ({[ of_string "a_b" := 1 ]} : gmap (list N) nat) in Hp.
  unfold Phrases.count_of in Hp. cbn [Phrases.min_count Phrases.train] in Hp.
  destruct (_ !! Phrases.join a b) as [n|] eqn:Hn; [|lia].
  apply lookup_singleton_Some in Hn as [_ <-]. lia.
Qed.

(** C9: the bigram loop appends to each document every token of
    [bigram[doc]] that contains an underscore.  The raw text [a_b] is one
    [\w+] token; when the lemmatizer leaves it as it is, no pair of the corpus
    is promoted, the detector returns the document unchanged, and yet the
    loop appends the token to its document a second time. *)
Theorem underscore_unigram_is_appended (U : unicode_db)
  (lexicon : gmap (list N) (list N)) :
  (forall (bigram : list str -> list str) (docs : list (list str)),
     Preprocess.add_bigrams_with bigram docs
     = Ok (map (fun doc =>
                  doc ++ List.filter (Str.contains Str.underscore) (bigram doc))
               docs)) /\
  (WordNet.lemmatize lexicon (of_string "a_b") = of_string "a_b" ->
   exists raw token,
     Str.contains Str.underscore token = true /\
     Preprocess.tokenize_and_filter U raw = Ok [[token]] /\
     (forall a b,
        Phrases.promoted (Phrases.train [[token]] 20) a b = false) /\
     Phrases.transform (Phrases.train [[token]] 20) [token] = [token] /\
     Preprocess.preprocess U lexicon raw = Ok [[token; token]]).
Proof.
  split.
  - intros bigram docs. apply add_bigrams_with_map.
  - intros Hlex. exists [of_string "a_b"], (of_string "a_b").
    assert (Htok : Preprocess.tokenize_and_filter U [of_string "a_b"]
                   = Ok [[of_string "a_b"]]).
    { rewrite tokenize_and_filter_map. reflexivity. }
    split; [reflexivity|]. split; [exact Htok|].
    split; [apply no_pair_in_single_token|]. split; [reflexivity|].
    unfold Preprocess.preprocess. rewrite Htok. simpl bind.
    unfold Preprocess.lemmatize_docs. simpl map. rewrite Hlex.
    unfold Preprocess.add_bigrams. rewrite add_bigrams_with_map.
    reflexivity.
Qed.

Lemma underscore_unigram_is_appended_witness :
  exists raw token,
    Str.contains Str.underscore token = true /\
    Preprocess.tokenize_and_filter ascii_tables raw = Ok [[token]] /\
    (forall a b,
       Phrases.promoted (Phrases.train [[token]] 20) a b = false) /\
    Phrases.transform (Phrases.train [[token]] 20) [token] = [token] /\
    Preprocess.preprocess ascii_tables ∅ raw = Ok [[token; token]].
Proof.
  apply (underscore_unigram_is_appended ascii_tables ∅).
  reflexivity.
Defined.


(** C5, at the input where it fails: the corpus of the one document [a_b].
    The detector substitutes no pair in the document and returns it as it
    is, and the loop, which takes every token with an underscore for a
    bigram, appends the token [a_b] to it. *)
Theorem bigram_loop_appends_a_unigram :
  let token := of_string "a_b" in
  let bigram := Phrases.train [[token]] 20 in
  Phrases.substituted bigram [token] = [] /\
  Phrases.transform bigram [token] = [token] /\
  Preprocess.add_bigrams [[token]] = Ok [[token; token]].
Proof.
  cbv zeta. split; [reflexivity|]. split; [reflexivity|].
  unfold Preprocess.add_bigrams. rewrite add_bigrams_with_map.
  reflexivity.
Qed.

(** ** The dictionary counts documents *)

Lemma df_of_bump (m : gmap (list N) nat) (x token : str) :
  Dictionary.df_of (Dictionary.bump m x) token
  = if bool_decide (x = token) then S (Dictionary.df_of m token)
    else Dictionary.df_of m token.
Proof.
  unfold Dictionary.bump. case_bool_decide as Heq.
  - subst. unfold Dictionary.df_of at 1. by rewrite lookup_insert_eq.
  - unfold Dictionary.df_of at 1. by rewrite lookup_insert_ne.
Qed.

Lemma df_of_bump_all (l : list str) (token : str) :
  NoDup l ->
  forall m,
    Dictionary.df_of (foldl Dictionary.bump m l) token
    = Dictionary.df_of m token + (if bool_decide (token ∈ l) then 1 else 0).
Proof.
  induction 1 as [|x l Hx Hl IH]; intros m; cbn [foldl].
  - rewrite bool_decide_eq_false_2; [lia | by intros H%elem_of_nil].
  - rewrite IH, df_of_bump.
    destruct (decide (x = token)) as [-> | Hne].
    + rewrite (bool_decide_eq_true_2 (token = token)) by reflexivity.
      rewrite (bool_decide_eq_false_2 _ Hx).
      rewrite bool_decide_eq_true_2; [lia | apply list_elem_of_here].
    + rewrite (bool_decide_eq_false_2 (x = token)) by exact Hne.
      destruct (bool_decide (token ∈ l)) eqn:Hin.
      * apply bool_decide_eq_true_1 in Hin.
        rewrite bool_decide_eq_true_2; [lia | by apply list_elem_of_further].
      * apply bool_decide_eq_false_1 in Hin.
        rewrite bool_decide_eq_false_2; [lia|].
        intros [Hhd | Htl]%elem_of_cons; [by apply Hne | by apply Hin].
Qed.

Lemma doc_freq_cons (token : str) (doc : list str) (docs : list (list str)) :
  Dictionary.doc_freq token (doc :: docs)
  = (if bool_decide (token ∈ doc) then 1 else 0) + Dictionary.doc_freq token docs.
Proof.
  unfold Dictionary.doc_freq. simpl.
  by destruct (bool_decide (token ∈ doc)).
Qed.

Lemma dfs_add_documents (token : str) (docs : list (list str)) :
  forall d,
    Dictionary.df_of (Dictionary.dfs (foldl Dictionary.add_document d docs)) token
    = Dictionary.df_of (Dictionary.dfs d) token + Dictionary.doc_freq token docs.
Proof.
  induction docs as [|doc docs IH]; intros d.
  - simpl. unfold Dictionary.doc_freq. simpl. lia.
  - simpl foldl. rewrite IH, doc_freq_cons. simpl Dictionary.dfs.
    rewrite df_of_bump_all by apply NoDup_remove_dups.
    rewrite (bool_decide_ext (token ∈ remove_dups doc) (token ∈ doc))
      by apply elem_of_remove_dups.
    lia.
Qed.

Lemma num_docs_add_documents (docs : list (list str)) :
  forall d,
    Dictionary.num_docs (foldl Dictionary.add_document d docs)
    = Dictionary.num_docs d + length docs.
Proof.
  induction docs as [|doc docs IH]; intros d; simpl.
  - lia.
  - rewrite IH. simpl. lia.
Qed.

Lemma dfs_build (token : str) (docs : list (list str)) :
  Dictionary.df_of (Dictionary.dfs (Dictionary.build docs)) token
  = Dictionary.doc_freq token docs.
Proof.
  unfold Dictionary.build. rewrite dfs_add_documents.
  unfold Dictionary.df_of, Dictionary.empty. simpl. by rewrite lookup_empty.
Qed.

Lemma num_docs_build (docs : list (list str)) :
  Dictionary.num_docs (Dictionary.build docs) = length docs.
Proof.
  unfold Dictionary.build. by rewrite num_docs_add_documents.
Qed.

(** ** The dictionary knows the tokens of the corpus *)






(** ** Filtering the dictionary *)

Lemma keep_half_iff (d : Dictionary.t) (token : str) :
  Dictionary.keep 20 (1 # 2) d token = true
  <-> 20 <= Dictionary.df_of (Dictionary.dfs d) token
      /\ 2 * Dictionary.df_of (Dictionary.dfs d) token <= Dictionary.num_docs d.
Proof.
  unfold Dictionary.keep. cbv zeta.
  rewrite andb_true_iff, Nat.leb_le, Qle_bool_iff.
  unfold Qle, Qmult, inject_Z. simpl Qnum. simpl Qden.
  split; intros [Hlow Hhigh]; (split; [exact Hlow | lia]).
Qed.

Lemma insert_by_perm {A} (le : A -> A -> bool) (x : A) (l : list A) :
  Dictionary.insert_by le x l ≡ₚ x :: l.
Proof.
  induction l as [|y l IH]; simpl; [reflexivity|].
  destruct (le x y); [reflexivity|].
  rewrite IH. apply perm_swap.
Qed.

Lemma sort_by_perm {A} (le : A -> A -> bool) (l : list A) :
  Dictionary.sort_by le l ≡ₚ l.
Proof.
  induction l as [|x l IH]; simpl; [reflexivity|].
  rewrite insert_by_perm. by rewrite IH.
Qed.

Lemma filter_submseteq {A} (f : A -> bool) (l : list A) :
  List.filter f l ⊆+ l.
Proof.
  induction l as [|x l IH]; simpl; [reflexivity|].
  destruct (f x); [by apply submseteq_skip | by apply submseteq_cons].
Qed.

Section Kept.

Variables (no_below : nat) (no_above : Q) (keep_n : nat) (d : Dictionary.t).

Lemma good_submseteq :
  Dictionary.good no_below no_above d ⊆+ map_to_list (Dictionary.token2id d).
Proof.
  unfold Dictionary.good. etransitivity; [apply filter_submseteq|].
  apply Permutation_submseteq, sort_by_perm.
Qed.

Lemma kept_submseteq_good :
  Dictionary.kept no_below no_above keep_n d
  ⊆+ Dictionary.good no_below no_above d.
Proof.
  unfold Dictionary.kept. cbv zeta.
  etransitivity; [apply Permutation_submseteq, sort_by_perm|].
  etransitivity; [apply sublist_submseteq, sublist_take|].
  apply Permutation_submseteq, sort_by_perm.
Qed.

Lemma good_elem (token : str) (id : nat) :
  (token, id) ∈ Dictionary.good no_below no_above d
  <-> Dictionary.token2id d !! token = Some id
      /\ Dictionary.keep no_below no_above d token = true.
Proof.
  unfold Dictionary.good.
  rewrite list_elem_of_In, filter_In, <- list_elem_of_In.
  rewrite sort_by_perm, elem_of_map_to_list. reflexivity.
Qed.

Lemma kept_elem (token : str) (id : nat) :
  (token, id) ∈ Dictionary.kept no_below no_above keep_n d ->
  Dictionary.token2id d !! token = Some id
  /\ Dictionary.keep no_below no_above d token = true.
Proof.
  intros Hin. apply good_elem.
  by apply (elem_of_submseteq _ _ _ Hin kept_submseteq_good).
Qed.



Lemma kept_NoDup : NoDup (Dictionary.kept no_below no_above keep_n d).*1.
Proof.
  assert (Hsub : (Dictionary.kept no_below no_above keep_n d).*1
                 ⊆+ (map_to_list (Dictionary.token2id d)).*1).
  { apply fmap_submseteq. etransitivity;
      [apply kept_submseteq_good | apply good_submseteq]. }
  apply submseteq_Permutation in Hsub as [k Hk].
  pose proof (NoDup_fst_map_to_list (Dictionary.token2id d)) as Hnodup.
  rewrite Hk in Hnodup. by apply NoDup_app in Hnodup as [Hnodup _].
Qed.

Let after := Dictionary.filter_extremes no_below no_above keep_n d.

Lemma filtered_size :
  size (Dictionary.token2id after)
  = length (Dictionary.kept no_below no_above keep_n d).
Proof.
  unfold after, Dictionary.filter_extremes. cbv zeta. cbn [Dictionary.token2id].
  rewrite map_size_list_to_map.
  - rewrite length_zip, length_seq, length_fmap. lia.
  - rewrite fst_zip by (by rewrite length_seq). apply kept_NoDup.
Qed.

Lemma filtered_lookup (token : str) (id : nat) :
  Dictionary.token2id after !! token = Some id ->
  id < size (Dictionary.token2id after) /\
  exists old,
    Dictionary.token2id d !! token = Some old
    /\ Dictionary.keep no_below no_above d token = true.
Proof.
  intros Hid. rewrite filtered_size.
  unfold after, Dictionary.filter_extremes in Hid. cbv zeta in Hid.
  cbn [Dictionary.token2id] in Hid.
  apply elem_of_list_to_map_2 in Hid.
  split.
  - apply elem_of_zip_r, elem_of_seq in Hid.
    rewrite length_fmap in Hid. lia.
  - apply elem_of_zip_l, list_elem_of_fmap in Hid.
    destruct Hid as ([token' old] & Heq & Hin). simpl in Heq. subst token'.
    exists old. by apply kept_elem.
Qed.


End Kept.

Lemma dictionary_lookup (docs : list (list str)) (token : str) (id : nat) :
  Dictionary.token2id (Vectorize.dictionary docs) !! token = Some id ->
  is_Some (Dictionary.token2id (Dictionary.build docs) !! token)
  /\ 20 <= Dictionary.doc_freq token docs
  /\ 2 * Dictionary.doc_freq token docs <= length docs.
Proof.
  unfold Vectorize.dictionary. intros Hid.
  apply filtered_lookup in Hid as (_ & old & Hold & Hkeep).
  apply keep_half_iff in Hkeep.
  rewrite dfs_build, num_docs_build in Hkeep. split; [by exists old | exact Hkeep].
Qed.







(** A corpus of 100 documents: [t19] is in the first 19 of them, [t20] in
    the first 20, [t50] in the first 50, [t51] in the first 51, [all] in
    every one. *)
Definition when (b : bool) (token : str) : list str :=
  if b then [token] else [].

Definition hundred_docs : list (list str) :=
  map (fun i =>
         when (i <? 19) (of_string "t19") ++ when (i <? 20) (of_string "t20")
         ++ when (i <? 50) (of_string "t50") ++ when (i <? 51) (of_string "t51")
         ++ [of_string "all"])
      (seq 0 100).









(** The ids of the tokens that stay are numbered anew: [t20] had the id 1
    and has the id 0 when [t19] is gone. *)
Example filter_extremes_renumbers :
  Dictionary.token2id (Dictionary.build hundred_docs) !! of_string "t20" = Some 1
  /\ Dictionary.token2id (Vectorize.dictionary hundred_docs) !! of_string "t20"
     = Some 0
  /\ size (Dictionary.token2id (Vectorize.dictionary hundred_docs)) = 2.
Proof. vm_compute. repeat split. Qed.

(** ** Bag of words *)

(** How often a token with the id occurs in the document. *)
Definition occurrences (d : Dictionary.t) (id : nat) (doc : list str) : nat :=
  length (List.filter
            (fun token => bool_decide (Dictionary.token2id d !! token = Some id))
            doc).

Lemma count_id_insert (counter : gmap nat nat) (i id n : nat) :
  Dictionary.count_id (<[i := n]> counter) id
  = if bool_decide (i = id) then n else Dictionary.count_id counter id.
Proof.
  unfold Dictionary.count_id. case_bool_decide as Heq.
  - subst. by rewrite lookup_insert_eq.
  - by rewrite lookup_insert_ne.
Qed.

Lemma count_tokens_total (d : Dictionary.t) (id : nat) (doc : list str) :
  forall counter,
    Dictionary.count_id (foldl (Dictionary.count_token d) counter doc) id
    = Dictionary.count_id counter id + occurrences d id doc.
Proof.
  induction doc as [|token doc IH]; intros counter.
  - unfold occurrences. simpl. lia.
  - cbn [foldl]. rewrite IH. unfold occurrences. cbn [List.filter].
    unfold Dictionary.count_token.
    destruct (Dictionary.token2id d !! token) as [i|] eqn:Hi.
    + rewrite count_id_insert.
      destruct (decide (i = id)) as [-> | Hne].
      * rewrite !bool_decide_eq_true_2 by reflexivity. simpl. lia.
      * rewrite (bool_decide_eq_false_2 (i = id)) by exact Hne.
        rewrite bool_decide_eq_false_2 by congruence. lia.
    + rewrite bool_decide_eq_false_2 by congruence. lia.
Qed.

Lemma count_tokens_positive (d : Dictionary.t) (doc : list str) :
  forall counter,
    (forall id n, counter !! id = Some n -> 1 <= n) ->
    forall id n,
      foldl (Dictionary.count_token d) counter doc !! id = Some n -> 1 <= n.
Proof.
  induction doc as [|token doc IH]; intros counter Hpos; [exact Hpos|].
  cbn [foldl]. apply IH. intros id n.
  unfold Dictionary.count_token.
  destruct (Dictionary.token2id d !! token) as [i|]; [|apply Hpos].
  rewrite lookup_insert_Some. intros [[_ <-] | [_ Hn]]; [lia|].
  by apply (Hpos id).
Qed.

Lemma count_tokens_known (d : Dictionary.t) (doc : list str) :
  forall counter,
    foldl (Dictionary.count_token d) counter doc
    = foldl (Dictionary.count_token d) counter
        (List.filter (Dictionary.known d) doc).
Proof.
  induction doc as [|token doc IH]; intros counter; [reflexivity|].
  cbn [foldl List.filter].
  destruct (Dictionary.known d token) eqn:Hknown.
  - cbn [foldl]. apply IH.
  - rewrite <- IH. f_equal. unfold Dictionary.count_token.
    destruct (Dictionary.token2id d !! token) eqn:Hi; [|reflexivity].
    apply bool_decide_eq_false_1 in Hknown.
    exfalso. apply Hknown. rewrite Hi. by eexists.
Qed.

Lemma occurrences_token (d : Dictionary.t) (id : nat) (doc : list str) :
  1 <= occurrences d id doc ->
  exists token, token ∈ doc /\ Dictionary.token2id d !! token = Some id.
Proof.
  unfold occurrences. intros Hocc.
  destruct (List.filter _ doc) as [|token rest] eqn:Hfilter; [simpl in Hocc; lia|].
  assert (Hin : In token (token :: rest)) by (left; reflexivity).
  rewrite <- Hfilter in Hin. apply filter_In in Hin. destruct Hin as [Hin Hid].
  exists token. split; [by apply list_elem_of_In|].
  by apply bool_decide_eq_true_1 in Hid.
Qed.

Lemma doc2bow_pair (d : Dictionary.t) (doc : list str) (id n : nat) :
  (id, n) ∈ Dictionary.doc2bow d doc ->
  1 <= n /\ n = occurrences d id doc.
Proof.
  unfold Dictionary.doc2bow. rewrite elem_of_map_to_list. intros Hlookup.
  split.
  - apply (count_tokens_positive d doc ∅ ltac:(intros ? ?; by rewrite lookup_empty) id n Hlookup).
  - pose proof (count_tokens_total d id doc ∅) as Htotal.
    unfold Dictionary.count_id in Htotal.
    rewrite Hlookup, lookup_empty in Htotal. lia.
Qed.

(** C4: for a dictionary built from a corpus and filtered, and for any
    document, every pair of [doc2bow] has a count of at least 1, which is the
    number of times a token with that id occurs in the document; its id is the
    id in the filtered dictionary of a token of the document, a token within
    the frequency bounds; no id comes twice; and the tokens of the document
    that the dictionary does not know change nothing in the result. *)
Theorem doc2bow_pairs (docs : list (list str)) (doc : list str) :
  let d := Vectorize.dictionary docs in
  let bow := Dictionary.doc2bow d doc in
  Forall (fun pair =>
            1 <= pair.2 /\
            pair.2 = occurrences d pair.1 doc /\
            exists token,
              token ∈ doc /\
              Dictionary.token2id d !! token = Some pair.1 /\
              20 <= Dictionary.doc_freq token docs /\
              2 * Dictionary.doc_freq token docs <= length docs) bow /\
  NoDup bow.*1 /\
  bow = Dictionary.doc2bow d (List.filter (Dictionary.known d) doc).
Proof.
  intros d bow. split; [|split].
  - apply Forall_forall. intros [id n] Hpair.
    apply doc2bow_pair in Hpair. destruct Hpair as [Hpos Hocc]. simpl.
    split; [exact Hpos|]. split; [exact Hocc|].
    destruct (occurrences_token d id doc) as (token & Hin & Hid); [lia|].
    exists token. split; [exact Hin|]. split; [exact Hid|].
    by apply dictionary_lookup in Hid as (_ & Hlow & Hhigh).
  - apply NoDup_fst_map_to_list.
  - unfold bow, Dictionary.doc2bow. by rewrite <- count_tokens_known.
Qed.

(** ** The coherence average *)








(** ** Decoding with [errors='replace'] *)

(** [strict] and [replace] stand in this relation on the same bytes:
    [replace] returns; where [strict] returns, it returns the same string;
    where [strict] raises, the string has a replacement character. *)
Definition replaces (strict replace : result str) : Prop :=
  exists s,
    replace = Ok s /\
    (forall s', strict = Ok s' -> s' = s) /\
    (forall e, strict = Raise e ->
               e = UnicodeDecodeError /\ In Utf8.replacement_character s).

Lemma replaces_nil : replaces (Ok []) (Ok []).
Proof.
  exists []. split; [reflexivity|]. split.
  - intros s' Hs. by inversion Hs.
  - intros e He. discriminate He.
Qed.

Lemma replaces_emit (c : N) (strict replace : result str) :
  replaces strict replace ->
  replaces (Utf8.emit c strict) (Utf8.emit c replace).
Proof.
  intros (s & -> & Hsame & Hmark). exists (c :: s).
  split; [reflexivity|]. split.
  - intros s' Hs. destruct strict as [s0|e]; simpl in Hs; [|discriminate Hs].
    inversion Hs; subst. f_equal. by apply Hsame.
  - intros e He. destruct strict as [s0|e0]; simpl in He; [discriminate He|].
    inversion He; subst. destruct (Hmark e eq_refl) as [-> Hin].
    split; [reflexivity | by right].
Qed.

Lemma replaces_on_error (strict replace : result str) :
  replaces strict replace ->
  replaces (Utf8.on_error Utf8.Strict strict)
           (Utf8.on_error Utf8.Replace replace).
Proof.
  intros (s & -> & _ & _). exists (Utf8.replacement_character :: s).
  split; [reflexivity|]. split.
  - intros s' Hs. discriminate Hs.
  - intros e He. inversion He. split; [reflexivity | by left].
Qed.

Lemma decode_replaces_bounded (n : nat) :
  forall bs, length bs <= n ->
    replaces (Utf8.decode Utf8.Strict bs) (Utf8.decode Utf8.Replace bs).
Proof.
  induction n as [|n IH]; intros bs Hlen.
  - destruct bs; [apply replaces_nil | simpl in Hlen; lia].
  - destruct bs as [|b0 r0]; [apply replaces_nil|].
    cbn [Utf8.decode].
    repeat match goal with
      | |- replaces (Utf8.emit _ _) (Utf8.emit _ _) => apply replaces_emit
      | |- replaces (Utf8.on_error _ _) (Utf8.on_error _ _) =>
          apply replaces_on_error
      | |- replaces (Ok []) (Ok []) => apply replaces_nil
      | |- replaces (Utf8.decode _ ?r) (Utf8.decode _ ?r) =>
          apply IH; simpl in Hlen |- *; lia
      | |- context [if ?c then _ else _] => destruct c
      | |- context [match ?r with [] => _ | _ :: _ => _ end] =>
          destruct r; cbv iota
      end.
Qed.

Lemma decode_replaces (bs : list byte) :
  replaces (Utf8.decode Utf8.Strict bs) (Utf8.decode Utf8.Replace bs).
Proof. by apply (decode_replaces_bounded (length bs)). Qed.

(** ** Extraction of the corpus *)

Section AcquireFacts.

Variable U : unicode_db.
Variables file tar : Type.
Variable smart_open_open : str -> result file.
Variable tarfile_open : file -> result tar.
Variable getmembers : tar -> result (list Acquire.TarInfo).
Variable extractfile_read : tar -> Acquire.TarInfo -> result (list byte).

(** The member is read, and [text] is what its bytes decode to. *)
Definition yields (t : tar) (member : Acquire.TarInfo) (text : str) : Prop :=
  exists member_bytes,
    extractfile_read t member = Ok member_bytes /\
    Utf8.decode Utf8.Replace member_bytes = Ok text.

Lemma members_loop_returns (t : tar) (members : list Acquire.TarInfo) :
  (forall member, In member members -> Acquire.selected U member = true ->
                  exists member_bytes, extractfile_read t member = Ok member_bytes) ->
  exists texts,
    Acquire.members_loop U tar extractfile_read t members = (texts, None) /\
    Forall2 (yields t) (List.filter (Acquire.selected U) members) texts.
Proof.
  induction members as [|member rest IH]; intros Hread.
  - exists []. split; [reflexivity | constructor].
  - destruct IH as (texts & Hloop & Hall).
    { intros m Hm. apply Hread. by right. }
    cbn [Acquire.members_loop List.filter].
    destruct (Acquire.selected U member) eqn:Hsel.
    + destruct (Hread member) as [member_bytes Hbytes]; [by left | done |].
      rewrite Hbytes.
      destruct (decode_replaces member_bytes) as (text & Htext & _).
      rewrite Htext, Hloop. exists (text :: texts).
      split; [reflexivity|]. constructor; [|exact Hall].
      by exists member_bytes.
    + by exists texts.
Qed.

Lemma members_loop_raises (t : tar) (members : list Acquire.TarInfo)
  (member : Acquire.TarInfo) (e : exn) :
  In member members -> Acquire.selected U member = true ->
  extractfile_read t member = Raise e ->
  exists texts e',
    Acquire.members_loop U tar extractfile_read t members = (texts, Some e').
Proof.
  intros Hin Hsel Hraise.
  induction members as [|m rest IH]; [destruct Hin|].
  cbn [Acquire.members_loop].
  destruct Hin as [-> | Hin].
  - rewrite Hsel, Hraise. by exists [], e.
  - destruct (IH Hin) as (texts & e' & Hloop).
    destruct (Acquire.selected U m); [|by exists texts, e'].
    destruct (extractfile_read t m) as [member_bytes|e0]; [|by exists [], e0].
    destruct (decode_replaces member_bytes) as (text & Htext & _).
    rewrite Htext, Hloop. by exists (text :: texts), e'.
Qed.

(** C7: decoding with [errors='replace'] never raises: it returns what
    strict decoding returns where that returns, and a string with U+FFFD
    where strict decoding raises.  So when the URL opens, the archive opens
    and lists its members and the selected members can be read, [docs] is
    the list of the decoded texts, one for every selected member, whatever
    the bytes of the members are.  When opening the URL, opening the archive,
    listing it or reading a selected member raises, [list(...)] raises and
    there is no [docs]. *)
Theorem extract_documents_failures :
  let docs :=
    Acquire.docs U file tar smart_open_open tarfile_open getmembers
      extractfile_read in
  let url := Acquire.default_url in
  (forall member_bytes,
     exists text,
       Utf8.decode Utf8.Replace member_bytes = Ok text /\
       (forall text', Utf8.decode Utf8.Strict member_bytes = Ok text' ->
                      text' = text) /\
       (forall e, Utf8.decode Utf8.Strict member_bytes = Raise e ->
                  In Utf8.replacement_character text)) /\
  (forall f t members,
     smart_open_open url = Ok f -> tarfile_open f = Ok t ->
     getmembers t = Ok members ->
     (forall member, In member members -> Acquire.selected U member = true ->
        exists member_bytes, extractfile_read t member = Ok member_bytes) ->
     exists texts,
       docs = Ok texts /\
       Forall2 (yields t) (List.filter (Acquire.selected U) members) texts) /\
  (forall e, smart_open_open url = Raise e -> docs = Raise e) /\
  (forall f e, smart_open_open url = Ok f -> tarfile_open f = Raise e ->
               docs = Raise e) /\
  (forall f t e, smart_open_open url = Ok f -> tarfile_open f = Ok t ->
                 getmembers t = Raise e -> docs = Raise e) /\
  (forall f t members member e,
     smart_open_open url = Ok f -> tarfile_open f = Ok t ->
     getmembers t = Ok members ->
     In member members -> Acquire.selected U member = true ->
     extractfile_read t member = Raise e ->
     exists e', docs = Raise e').
Proof.
  intros docs url. unfold docs, Acquire.docs, Acquire.extract_documents.
  fold url.
  split.
  { intros member_bytes.
    destruct (decode_replaces member_bytes) as (text & Htext & Hsame & Hmark).
    exists text. split; [exact Htext|]. split; [exact Hsame|].
    intros e He. by apply (Hmark e). }
  split.
  { intros f t members -> -> -> Hread.
    destruct (members_loop_returns t members Hread) as (texts & Hloop & Hall).
    exists texts. split; [|exact Hall].
    rewrite Hloop. reflexivity. }
  split; [by intros e ->|].
  split; [by intros f e -> ->|].
  split; [by intros f t e -> -> ->|].
  intros f t members member e -> -> -> Hin Hsel Hraise.
  destruct (members_loop_raises t members member e Hin Hsel Hraise)
    as (texts & e' & Hloop).
  exists e'. rewrite Hloop. reflexivity.
Qed.

End AcquireFacts.

(** An archive with a text file whose bytes are no UTF-8, a directory, and a
    text file of plain ASCII; and a URL that does not open. *)
Definition archive : list Acquire.TarInfo :=
  [ {| Acquire.name := of_string "nipstxt/nips12/0001.txt"; Acquire.isfile := true |};
    {| Acquire.name := of_string "nipstxt/nips12"; Acquire.isfile := false |};
    {| Acquire.name := of_string "nipstxt/nips12/0002.txt"; Acquire.isfile := true |} ].

Definition archive_read (t : unit) (member : Acquire.TarInfo) : result (list byte) :=
  if bool_decide (Acquire.name member = of_string "nipstxt/nips12/0001.txt")
  then Ok [x61; xff; xe2; x82; x62]
  else Ok [x6f; x6b].

Lemma extract_documents_failures_witness :
  Acquire.docs ascii_tables unit unit
    (fun _ => Ok tt) (fun _ => Ok tt) (fun _ => Ok archive) archive_read
  = Ok [[97; 0xFFFD; 0xFFFD; 98]; [111; 107]]%N /\
  Acquire.docs ascii_tables unit unit
    (fun _ => Raise OSError) (fun _ => Ok tt) (fun _ => Ok archive) archive_read
  = Raise OSError.
Proof.
  split.
  - destruct (extract_documents_failures ascii_tables unit unit
                (fun _ => Ok tt) (fun _ => Ok tt) (fun _ => Ok archive)
                archive_read) as (_ & Hreturns & _).
    destruct (Hreturns tt tt archive eq_refl eq_refl eq_refl)
      as (texts & Hdocs & _).
    + intros member _ _. unfold archive_read.
      destruct (bool_decide _); eexists; reflexivity.
    + rewrite Hdocs. vm_compute in Hdocs. inversion Hdocs. reflexivity.
  - destruct (extract_documents_failures ascii_tables unit unit
                (fun _ => Raise OSError) (fun _ => Ok tt) (fun _ => Ok archive)
                archive_read) as (_ & _ & Hopen & _).
    apply Hopen. reflexivity.
Defined.

(** ** The model on small inputs *)

Example decode_replace_example :
  Utf8.decode Utf8.Replace [x61; xe2; x82; xac; xe2; x28; xa1; xf0; x90]
  = Ok [97; 8364; 0xFFFD; 40; 0xFFFD; 0xFFFD]%N
  /\ Utf8.decode Utf8.Strict [x61; xe2; x82; xac; xe2; x28; xa1; xf0; x90]
     = Raise UnicodeDecodeError
  /\ Utf8.decode Utf8.Strict [x61; xe2; x82; xac] = Ok [97; 8364]%N.
Proof. vm_compute. repeat split. Qed.

Example re_search_example :
  Acquire.re_search ascii_tables (of_string "./nipstxt/nips12/0001.txt") = true
  /\ Acquire.re_search ascii_tables (of_string "nipstxt/nips/0001.txt") = false
  /\ Acquire.re_search ascii_tables (of_string "nipstxt/nips12/README") = false.
Proof. vm_compute. repeat split. Qed.

Example tokenize_example :
  Preprocess.tokenize_and_filter ascii_tables
    [of_string "Cat dog_x 12 a CAT, x1!"]
  = Ok [[of_string "cat"; of_string "dog_x"; of_string "cat"; of_string "x1"]].
Proof. vm_compute. reflexivity. Qed.

(** The corpus [cat dog cat], [dog bird], [cat dog bird fish] with the bounds
    [no_below=1], [no_above=1.0]: the dictionary holds the four tokens, and
    the first document counts [cat] twice and [dog] once. *)
Definition toy_docs : list (list str) :=
  [ [of_string "cat"; of_string "dog"; of_string "cat"];
    [of_string "dog"; of_string "bird"];
    [of_string "cat"; of_string "dog"; of_string "bird"; of_string "fish"] ].

Definition toy_dictionary : Dictionary.t :=
  Dictionary.filter_extremes 1 1 Dictionary.default_keep_n
    (Dictionary.build toy_docs).

Example toy_dictionary_example :
  Dictionary.token2id toy_dictionary !! of_string "cat" = Some 0
  /\ Dictionary.token2id toy_dictionary !! of_string "dog" = Some 1
  /\ Dictionary.token2id toy_dictionary !! of_string "bird" = Some 2
  /\ Dictionary.token2id toy_dictionary !! of_string "fish" = Some 3
  /\ size (Dictionary.token2id toy_dictionary) = 4
  /\ Dictionary.doc2bow toy_dictionary
       [of_string "cat"; of_string "dog"; of_string "cat"]
     ≡ₚ [(0, 2); (1, 1)].
Proof.
  vm_compute. repeat split; try reflexivity. apply perm_swap.
Qed.

(** * Further properties of the notebook's code *)

(** ** The decoder on ASCII, the range of its output, its length *)

(** X1: bytes below 0x80 decode to themselves, with either error handler. *)
Theorem decode_ascii (h : Utf8.errors) (bs : list byte) :
  Forall (fun b => (Byte.to_N b < 128)%N) bs ->
  Utf8.decode h bs = Ok (map Byte.to_N bs).
Proof.
  induction 1 as [|b bs Hb _ IH]; [reflexivity|].
  cbn [Utf8.decode map]. apply N.ltb_lt in Hb. rewrite Hb, IH. reflexivity.
Qed.

Lemma decode_ascii_witness :
  Utf8.decode Utf8.Replace [x4c; x44; x41] = Ok [76; 68; 65]%N.
Proof.
  apply (decode_ascii Utf8.Replace [x4c; x44; x41]).
  repeat constructor.
Defined.

(** A Unicode scalar value: at most U+10FFFF and no surrogate. *)
Definition scalar_value (c : N) : Prop :=
  (c < 0x110000 /\ ~ (0xD800 <= c /\ c < 0xE000))%N.

Definition all_scalar (r : result str) : Prop :=
  forall s, r = Ok s -> Forall scalar_value s.

Lemma all_scalar_nil : all_scalar (Ok []).
Proof. intros s Hs. inversion Hs. constructor. Qed.

Lemma all_scalar_emit (c : N) (k : result str) :
  scalar_value c -> all_scalar k -> all_scalar (Utf8.emit c k).
Proof.
  intros Hc Hk s Hs. destruct k as [s0|e]; simpl in Hs; [|discriminate Hs].
  inversion Hs; subst. constructor; [exact Hc | by apply Hk].
Qed.

Lemma all_scalar_on_error (h : Utf8.errors) (k : result str) :
  all_scalar k -> all_scalar (Utf8.on_error h k).
Proof.
  intros Hk. destruct h; simpl.
  - intros s Hs. discriminate Hs.
  - apply all_scalar_emit; [|exact Hk].
    unfold scalar_value, Utf8.replacement_character. lia.
Qed.

Lemma decode_all_scalar_bounded (h : Utf8.errors) (n : nat) :
  forall bs, length bs <= n -> all_scalar (Utf8.decode h bs).
Proof.
  induction n as [|n IH]; intros bs Hlen.
  - destruct bs; [apply all_scalar_nil | simpl in Hlen; lia].
  - destruct bs as [|b0 r0]; [apply all_scalar_nil|].
    cbn [Utf8.decode].
    unfold Utf8.is_continuation, Utf8.bad_second3, Utf8.bad_second4.
    repeat match goal with
      | |- all_scalar (Utf8.emit _ _) =>
          apply all_scalar_emit;
          [unfold scalar_value, Utf8.scalar2, Utf8.scalar3, Utf8.scalar4; lia|]
      | |- all_scalar (Utf8.on_error _ _) => apply all_scalar_on_error
      | |- all_scalar (Ok []) => apply all_scalar_nil
      | |- all_scalar (Utf8.decode _ _) => apply IH; simpl in Hlen |- *; lia
      | |- context [(?a <? ?b)%N] =>
          destruct (N.ltb_spec a b); cbn [negb andb orb]
      | |- context [(?a <=? ?b)%N] =>
          destruct (N.leb_spec a b); cbn [negb andb orb]
      | |- context [(?a =? ?b)%N] =>
          destruct (N.eqb_spec a b); cbn [negb andb orb]
      | |- context [match ?r with [] => _ | _ :: _ => _ end] =>
          destruct r; cbv iota
      end.
Qed.

Lemma decode_continuation (h : Utf8.errors) (b : byte) (rest : list byte) :
  Utf8.is_continuation (Byte.to_N b) = true ->
  Utf8.decode h (b :: rest) = Utf8.on_error h (Utf8.decode h rest).
Proof.
  unfold Utf8.is_continuation. rewrite andb_true_iff, N.leb_le, N.ltb_lt.
  intros [Hlow Hhigh]. cbn [Utf8.decode].
  destruct (N.ltb_spec (Byte.to_N b) 0x80); [lia|].
  destruct (N.ltb_spec (Byte.to_N b) 0xC2); [reflexivity | lia].
Qed.

(** The value that the bits of a two-, three- or four-byte form stand for:
    a lead byte [110xxxxx], [1110xxxx] or [11110xxx] and one, two or three
    bytes [10xxxxxx]. *)
Definition sequence_value (bs : list N) : option N :=
  match bs with
  | [ch; ch2] =>
      if (0xC0 <=? ch)%N && (ch <? 0xE0)%N && Utf8.is_continuation ch2
      then Some (Utf8.scalar2 ch ch2) else None
  | [ch; ch2; ch3] =>
      if (0xE0 <=? ch)%N && (ch <? 0xF0)%N && Utf8.is_continuation ch2
         && Utf8.is_continuation ch3
      then Some (Utf8.scalar3 ch ch2 ch3) else None
  | [ch; ch2; ch3; ch4] =>
      if (0xF0 <=? ch)%N && (ch <? 0xF8)%N && Utf8.is_continuation ch2
         && Utf8.is_continuation ch3 && Utf8.is_continuation ch4
      then Some (Utf8.scalar4 ch ch2 ch3 ch4) else None
  | _ => None
  end.

(** The least value that needs a form of that many bytes. *)
Definition least_value (bytes : nat) : N :=
  match bytes with
  | 2 => 0x80
  | 3 => 0x800
  | 4 => 0x10000
  | _ => 0
  end.

(** Overlong, a surrogate, or above U+10FFFF. *)
Definition ill_formed (bytes : nat) (value : N) : bool :=
  ((value <? least_value bytes) || ((0xD800 <=? value) && (value <? 0xE000))
   || (0x10FFFF <? value))%N.

(** The lead bytes of the ill-formed sequences, with their second byte. *)
Definition ill_formed_lead (ch ch2 : N) : Prop :=
  ((0xC0 <= ch /\ ch < 0xC2) \/ (ch = 0xE0 /\ ch2 < 0xA0)
   \/ (ch = 0xED /\ 0xA0 <= ch2) \/ (ch = 0xF0 /\ ch2 < 0x90)
   \/ (ch = 0xF4 /\ 0x90 <= ch2) \/ 0xF5 <= ch)%N.

Lemma decode_ill_formed_lead (h : Utf8.errors) (b0 b1 : byte)
  (tail : list byte) :
  Utf8.is_continuation (Byte.to_N b1) = true ->
  ill_formed_lead (Byte.to_N b0) (Byte.to_N b1) ->
  Utf8.decode h (b0 :: b1 :: tail)
  = Utf8.on_error h (Utf8.decode h (b1 :: tail)).
Proof.
  unfold ill_formed_lead, Utf8.is_continuation.
  rewrite andb_true_iff, N.leb_le, N.ltb_lt. intros [Hlow Hhigh] Hlead.
  cbn [Utf8.decode].
  unfold Utf8.is_continuation, Utf8.bad_second3, Utf8.bad_second4.
  repeat match goal with
    | |- ?x = ?x => reflexivity
    | |- context [(?a <? ?b)%N] =>
        destruct (N.ltb_spec a b); cbn [negb andb orb]; try lia
    | |- context [(?a <=? ?b)%N] =>
        destruct (N.leb_spec a b); cbn [negb andb orb]; try lia
    | |- context [(?a =? ?b)%N] =>
        destruct (N.eqb_spec a b); cbn [negb andb orb]; try lia
    end.
Qed.

Lemma is_continuation_range (b : N) :
  Utf8.is_continuation b = true -> (0x80 <= b /\ b < 0xC0)%N.
Proof.
  unfold Utf8.is_continuation. by rewrite andb_true_iff, N.leb_le, N.ltb_lt.
Qed.

Lemma decode_ill_formed (seq rest : list byte) (value : N) :
  sequence_value (map Byte.to_N seq) = Some value ->
  ill_formed (length seq) value = true ->
  Utf8.decode Utf8.Strict (seq ++ rest) = Raise UnicodeDecodeError
  /\ Utf8.decode Utf8.Replace (seq ++ rest)
     = Nat.iter (length seq) (Utf8.emit Utf8.replacement_character)
         (Utf8.decode Utf8.Replace rest).
Proof.
  intros Hvalue Hill.
  destruct seq as [|b0 [|b1 [|b2 [|b3 [|b4 seq]]]]]; try discriminate Hvalue;
    cbn [map sequence_value] in Hvalue;
    match type of Hvalue with
    | (if ?c then _ else _) = _ => destruct c eqn:Hshape; [|discriminate Hvalue]
    end;
    injection Hvalue as <-;
    repeat (apply andb_true_iff in Hshape as [Hshape ?]);
    apply N.leb_le in Hshape;
    match goal with
    | H : (_ <? _)%N = true |- _ => apply N.ltb_lt in H
    end;
    unfold ill_formed in Hill; cbn [length least_value] in Hill;
    rewrite !orb_true_iff, andb_true_iff, !N.ltb_lt, N.leb_le in Hill;
    unfold Utf8.scalar2, Utf8.scalar3, Utf8.scalar4 in Hill;
    assert (Hlead : ill_formed_lead (Byte.to_N b0) (Byte.to_N b1))
      by (repeat match goal with
            | H : Utf8.is_continuation _ = true |- _ =>
                apply is_continuation_range in H
            end; unfold ill_formed_lead; lia);
    cbn [app length Nat.iter];
    rewrite !(decode_ill_formed_lead _ b0 b1) by assumption;
    (split; [reflexivity|]);
    rewrite !(decode_continuation Utf8.Replace) by assumption;
    reflexivity.
Qed.

(** X2: whatever the bytes are, every code point of a decoded text is a
    Unicode scalar value: none is above U+10FFFF and none is a surrogate.
    Bytes that have the shape of a two-, three- or four-byte form and stand
    for an overlong value, a surrogate or a value above U+10FFFF are refused
    by strict decoding, and with [errors='replace'] each of them becomes
    U+FFFD. *)
Theorem decode_scalar_values (h : Utf8.errors) (bs : list byte) (text : str) :
  (Utf8.decode h bs = Ok text -> Forall scalar_value text) /\
  (forall (seq rest : list byte) (value : N),
      sequence_value (map Byte.to_N seq) = Some value ->
      ill_formed (length seq) value = true ->
      Utf8.decode Utf8.Strict (seq ++ rest) = Raise UnicodeDecodeError
      /\ Utf8.decode Utf8.Replace (seq ++ rest)
         = Nat.iter (length seq) (Utf8.emit Utf8.replacement_character)
             (Utf8.decode Utf8.Replace rest)).
Proof.
  split.
  - intros Htext. by apply (decode_all_scalar_bounded h (length bs) bs).
  - apply decode_ill_formed.
Qed.

Lemma decode_scalar_values_witness :
  Forall scalar_value [0xFFFD; 0xFFFD; 0xFFFD; 0x10FFFF]%N
  /\ Utf8.decode Utf8.Strict [xed; xa0; x80; x41] = Raise UnicodeDecodeError
  /\ Utf8.decode Utf8.Replace [xed; xa0; x80; x41]
     = Ok [0xFFFD; 0xFFFD; 0xFFFD; 65]%N.
Proof.
  destruct (decode_scalar_values Utf8.Replace
              [xed; xa0; x80; xf4; x8f; xbf; xbf]
              [0xFFFD; 0xFFFD; 0xFFFD; 0x10FFFF]%N) as [Hscalar Hill].
  split; [apply Hscalar; vm_compute; reflexivity|].
  apply (Hill [xed; xa0; x80] [x41] 0xD800%N); vm_compute; reflexivity.
Defined.

(** The text has [n] bytes behind it: one to four for each code point. *)
Definition within_bytes (n : nat) (r : result str) : Prop :=
  forall s, r = Ok s -> length s <= n /\ n <= 4 * length s.

Lemma within_bytes_nil : within_bytes 0 (Ok []).
Proof. intros s Hs. inversion Hs. simpl. lia. Qed.

Lemma within_bytes_emit (m n : nat) (c : N) (k : result str) :
  within_bytes m k -> m < n -> n <= m + 4 -> within_bytes n (Utf8.emit c k).
Proof.
  intros Hk Hlow Hhigh s Hs.
  destruct k as [s0|e]; simpl in Hs; [|discriminate Hs].
  inversion Hs; subst. destruct (Hk s0 eq_refl). simpl. lia.
Qed.

Lemma within_bytes_on_error (m n : nat) (h : Utf8.errors) (k : result str) :
  within_bytes m k -> m < n -> n <= m + 4 ->
  within_bytes n (Utf8.on_error h k).
Proof.
  intros Hk Hlow Hhigh. destruct h; simpl.
  - intros s Hs. discriminate Hs.
  - by apply (within_bytes_emit m).
Qed.

Lemma decode_within_bytes_bounded (h : Utf8.errors) (n : nat) :
  forall bs, length bs <= n -> within_bytes (length bs) (Utf8.decode h bs).
Proof.
  induction n as [|n IH]; intros bs Hlen.
  - destruct bs; [apply within_bytes_nil | simpl in Hlen; lia].
  - destruct bs as [|b0 r0]; [apply within_bytes_nil|].
    cbn [Utf8.decode].
    repeat match goal with
      | |- within_bytes _ (Utf8.emit _ (Utf8.decode _ ?r)) =>
          apply (within_bytes_emit (length r));
          [apply IH; simpl in Hlen |- *; lia | simpl; lia | simpl; lia]
      | |- within_bytes _ (Utf8.on_error _ (Utf8.decode _ ?r)) =>
          apply (within_bytes_on_error (length r));
          [apply IH; simpl in Hlen |- *; lia | simpl; lia | simpl; lia]
      | |- within_bytes _ (Utf8.on_error _ (Ok [])) =>
          apply (within_bytes_on_error 0);
          [apply within_bytes_nil | simpl; lia | simpl; lia]
      | |- context [if ?c then _ else _] => destruct c
      | |- context [match ?r with [] => _ | _ :: _ => _ end] =>
          destruct r; cbv iota
      end.
Qed.

(** X3: a decoded text has at most as many code points as there were bytes,
    and at least a quarter as many: every code point, the replacement
    character too, stands for one to four bytes. *)
Theorem decode_length (h : Utf8.errors) (bs : list byte) (text : str) :
  Utf8.decode h bs = Ok text ->
  length text <= length bs /\ length bs <= 4 * length text.
Proof.
  intros Htext.
  by apply (decode_within_bytes_bounded h (length bs) bs).
Qed.

Lemma decode_length_witness :
  length [97; 0xFFFD; 0xFFFD; 98]%N <= 5 /\ 5 <= 4 * length [97; 0xFFFD; 0xFFFD; 98]%N.
Proof.
  apply (decode_length Utf8.Replace [x61; xff; xe2; x82; x62]).
  vm_compute. reflexivity.
Defined.

(** ** Which members are read, and which failure is raised *)

Section ExtractionFacts.

Variable U : unicode_db.
Variables file tar : Type.
Variable smart_open_open : str -> result file.
Variable tarfile_open : file -> result tar.
Variable getmembers : tar -> result (list Acquire.TarInfo).

Lemma members_loop_reads_selected
  (read1 read2 : tar -> Acquire.TarInfo -> result (list byte))
  (t : tar) (members : list Acquire.TarInfo) :
  (forall member, Acquire.selected U member = true ->
                  read1 t member = read2 t member) ->
  Acquire.members_loop U tar read1 t members
  = Acquire.members_loop U tar read2 t members.
Proof.
  intros Hsame. induction members as [|member rest IH]; [reflexivity|].
  cbn [Acquire.members_loop].
  destruct (Acquire.selected U member) eqn:Hsel; [|exact IH].
  rewrite (Hsame member Hsel), IH. reflexivity.
Qed.

(** X4: the loop reads no member that is not a regular file or whose name
    does not match the pattern: two archives whose readers agree on the
    selected members give the same [docs], whatever reading the other
    members would return or raise. *)
Theorem unselected_members_are_not_read
  (read1 read2 : tar -> Acquire.TarInfo -> result (list byte)) :
  (forall t member, Acquire.selected U member = true ->
                    read1 t member = read2 t member) ->
  Acquire.docs U file tar smart_open_open tarfile_open getmembers read1
  = Acquire.docs U file tar smart_open_open tarfile_open getmembers read2.
Proof.
  intros Hsame. unfold Acquire.docs, Acquire.extract_documents.
  destruct (smart_open_open Acquire.default_url) as [f|e]; [|reflexivity].
  destruct (tarfile_open f) as [t|e]; [|reflexivity].
  destruct (getmembers t) as [members|e]; [|reflexivity].
  rewrite (members_loop_reads_selected read1 read2 t members); [reflexivity|].
  intros member. apply Hsame.
Qed.

Lemma members_loop_first_failure
  (read : tar -> Acquire.TarInfo -> result (list byte)) (t : tar)
  (before after : list Acquire.TarInfo) (member : Acquire.TarInfo) (e : exn) :
  (forall m, In m before -> Acquire.selected U m = true ->
             exists member_bytes, read t m = Ok member_bytes) ->
  Acquire.selected U member = true ->
  read t member = Raise e ->
  snd (Acquire.members_loop U tar read t (before ++ member :: after)) = Some e.
Proof.
  intros Hbefore Hsel Hraise.
  induction before as [|m before IH]; cbn [app Acquire.members_loop].
  - rewrite Hsel, Hraise. reflexivity.
  - assert (IH' := IH (fun m' Hm' => Hbefore m' (or_intror Hm'))).
    destruct (Acquire.selected U m) eqn:Hm; [|exact IH'].
    destruct (Hbefore m (or_introl eq_refl) Hm) as [member_bytes Hbytes].
    rewrite Hbytes.
    destruct (decode_replaces member_bytes) as (text & Htext & _).
    rewrite Htext. exact IH'.
Qed.

(** X5: the exception of [list(extract_documents())] is the exception of
    the first selected member that cannot be read; the texts of the members
    before it are lost with it, and the members after it are not looked at. *)
Theorem first_unreadable_member_is_raised
  (read : tar -> Acquire.TarInfo -> result (list byte))
  (f : file) (t : tar) (before after : list Acquire.TarInfo)
  (member : Acquire.TarInfo) (e : exn) :
  smart_open_open Acquire.default_url = Ok f ->
  tarfile_open f = Ok t ->
  getmembers t = Ok (before ++ member :: after) ->
  (forall m, In m before -> Acquire.selected U m = true ->
             exists member_bytes, read t m = Ok member_bytes) ->
  Acquire.selected U member = true ->
  read t member = Raise e ->
  Acquire.docs U file tar smart_open_open tarfile_open getmembers read
  = Raise e.
Proof.
  intros Hopen Htar Hmembers Hbefore Hsel Hraise.
  unfold Acquire.docs, Acquire.extract_documents.
  rewrite Hopen, Htar, Hmembers. unfold Acquire.list_of.
  by rewrite (members_loop_first_failure read t before after member e).
Qed.

End ExtractionFacts.

(** The reader of [archive], except that reading the directory raises; and a
    reader that cannot read the second text file. *)
Definition archive_read_strict (t : unit) (member : Acquire.TarInfo)
  : result (list byte) :=
  if Acquire.isfile member then archive_read t member else Raise TarError.

Definition archive_read_truncated (t : unit) (member : Acquire.TarInfo)
  : result (list byte) :=
  if bool_decide (Acquire.name member = of_string "nipstxt/nips12/0002.txt")
  then Raise TarError
  else archive_read t member.

Lemma unselected_members_are_not_read_witness :
  Acquire.docs ascii_tables unit unit
    (fun _ => Ok tt) (fun _ => Ok tt) (fun _ => Ok archive) archive_read
  = Acquire.docs ascii_tables unit unit
      (fun _ => Ok tt) (fun _ => Ok tt) (fun _ => Ok archive)
      archive_read_strict.
Proof.
  apply (unselected_members_are_not_read ascii_tables unit unit
           (fun _ => Ok tt) (fun _ => Ok tt) (fun _ => Ok archive)
           archive_read archive_read_strict).
  intros t member Hsel. unfold archive_read_strict.
  unfold Acquire.selected in Hsel.
  destruct (Acquire.isfile member); [reflexivity | discriminate Hsel].
Defined.

Lemma first_unreadable_member_is_raised_witness :
  Acquire.docs ascii_tables unit unit
    (fun _ => Ok tt) (fun _ => Ok tt) (fun _ => Ok archive)
    archive_read_truncated
  = Raise TarError.
Proof.
  apply (first_unreadable_member_is_raised ascii_tables unit unit
           (fun _ => Ok tt) (fun _ => Ok tt) (fun _ => Ok archive)
           archive_read_truncated tt tt
           [ {| Acquire.name := of_string "nipstxt/nips12/0001.txt";
                Acquire.isfile := true |};
             {| Acquire.name := of_string "nipstxt/nips12";
                Acquire.isfile := false |} ]
           []
           {| Acquire.name := of_string "nipstxt/nips12/0002.txt";
              Acquire.isfile := true |}
           TarError);
    try reflexivity.
  intros m [<- | [<- | []]] Hsel.
  - eexists. reflexivity.
  - discriminate Hsel.
Defined.

(** ** The first look at the corpus *)

(** [print(len(docs))], [print(docs[0][:500])]: what the two lines print,
    or the exception of [docs[0]]. *)
Definition first_look (docs : list str) : result (nat * list N) :=
  let! doc := getitem docs 0 in
  Ok (length docs, take 500 doc).

Section FirstLook.

Variable U : unicode_db.
Variables file tar : Type.
Variable smart_open_open : str -> result file.
Variable tarfile_open : file -> result tar.
Variable getmembers : tar -> result (list Acquire.TarInfo).
Variable extractfile_read : tar -> Acquire.TarInfo -> result (list byte).

(** X12: when the archive is fetched and read without failure, the cell
    that prints the start of [docs[0]] raises [IndexError] exactly when no
    member of the archive is selected; otherwise it prints the number of
    selected members and at most 500 code points, the start of the text of
    the first selected member. *)
Theorem first_look_after_extraction (f : file) (t : tar)
  (members : list Acquire.TarInfo) :
  smart_open_open Acquire.default_url = Ok f ->
  tarfile_open f = Ok t ->
  getmembers t = Ok members ->
  (forall member, In member members -> Acquire.selected U member = true ->
     exists member_bytes, extractfile_read t member = Ok member_bytes) ->
  let cells :=
    let! docs := Acquire.docs U file tar smart_open_open tarfile_open
                   getmembers extractfile_read in
    first_look docs in
  (cells = Raise IndexError
   <-> List.filter (Acquire.selected U) members = []) /\
  (forall member rest,
     List.filter (Acquire.selected U) members = member :: rest ->
     exists text start,
       yields tar extractfile_read t member text /\
       cells = Ok (S (length rest), start) /\
       start `prefix_of` text /\ length start <= 500).
Proof.
  intros Hopen Htar Hmembers Hread cells.
  destruct (members_loop_returns U tar extractfile_read t members Hread)
    as (texts & Hloop & Hall).
  assert (Hdocs : Acquire.docs U file tar smart_open_open tarfile_open
                    getmembers extractfile_read = Ok texts).
  { unfold Acquire.docs, Acquire.extract_documents.
    rewrite Hopen, Htar, Hmembers. unfold Acquire.list_of.
    rewrite Hloop. reflexivity. }
  unfold cells. rewrite Hdocs. cbn [bind]. clear cells Hdocs.
  split.
  - split.
    + intros Hraise.
      destruct (List.filter (Acquire.selected U) members) as [|m ms];
        [reflexivity|].
      inversion Hall; subst. discriminate Hraise.
    + intros Hnone. rewrite Hnone in Hall. inversion Hall; subst.
      reflexivity.
  - intros member rest Hsome. rewrite Hsome in Hall.
    inversion Hall as [|? text ? texts' Hyield Hrest]; subst.
    exists text, (take 500 text). split; [exact Hyield|]. split.
    + unfold first_look, getitem. cbn. f_equal. f_equal. f_equal.
      symmetry. exact (Forall2_length _ _ _ Hrest).
    + split; [apply prefix_take|]. rewrite length_take. lia.
Qed.

End FirstLook.

Lemma first_look_after_extraction_witness :
  (let! docs := Acquire.docs ascii_tables unit unit
                  (fun _ => Ok tt) (fun _ => Ok tt) (fun _ => Ok archive)
                  archive_read in
   first_look docs) = Raise IndexError
  <-> List.filter (Acquire.selected ascii_tables) archive = [].
Proof.
  destruct (first_look_after_extraction ascii_tables unit unit
              (fun _ => Ok tt) (fun _ => Ok tt) (fun _ => Ok archive)
              archive_read tt tt archive eq_refl eq_refl eq_refl)
    as [Hiff _]; [|exact Hiff].
  intros member _ _. unfold archive_read.
  destruct (bool_decide _); eexists; reflexivity.
Defined.

(** ** The pattern of the member names *)

Section PatternFacts.

Variable U : unicode_db.

(** A non-empty run of decimal digits. *)
Definition digits (d : str) : Prop :=
  d <> [] /\ Forall (fun c => Str.is_decimal_char U c = true) d.

Lemma strip_prefix_Some (p s r : str) :
  Acquire.strip_prefix p s = Some r <-> s = p ++ r.
Proof.
  revert s. induction p as [|a p IH]; intros s; simpl.
  - destruct s; split; congruence.
  - destruct s as [|b s].
    + split; [discriminate | intros H; inversion H].
    + destruct (N.eqb_spec a b) as [-> | Hne].
      * rewrite IH. split; [by intros -> | by intros H; inversion H].
      * split; [discriminate | intros H; inversion H; by subst].
Qed.

Lemma strip_prefix_app (p r : str) : Acquire.strip_prefix p (p ++ r) = Some r.
Proof. by apply strip_prefix_Some. Qed.

Lemma skip_digits_split (s : str) :
  exists d,
    s = d ++ Acquire.skip_digits U s /\
    Forall (fun c => Str.is_decimal_char U c = true) d.
Proof.
  induction s as [|c s (d & Hs & Hd)]; simpl.
  - by exists [].
  - destruct (Str.is_decimal_char U c) eqn:Hc.
    + exists (c :: d). split; [simpl; by rewrite <- Hs | by constructor].
    + by exists [].
Qed.

Lemma skip_digits_app (d : str) (c : N) (r : str) :
  Forall (fun c => Str.is_decimal_char U c = true) d ->
  Str.is_decimal_char U c = false ->
  Acquire.skip_digits U (d ++ c :: r) = c :: r.
Proof.
  intros Hd Hc. induction Hd as [|x d Hx _ IH]; simpl.
  - by rewrite Hc.
  - by rewrite Hx.
Qed.

Lemma digits1_Some (s r : str) :
  Acquire.digits1 U s = Some r -> exists d, digits d /\ s = d ++ r.
Proof.
  unfold Acquire.digits1. destruct s as [|c s]; [discriminate|].
  destruct (Str.is_decimal_char U c) eqn:Hc; [|discriminate].
  intros Hr. inversion Hr; subst.
  destruct (skip_digits_split s) as (d & Hs & Hd).
  exists (c :: d). split.
  - split; [discriminate | by constructor].
  - simpl. by rewrite <- Hs.
Qed.

Lemma digits1_app (d : str) (c : N) (r : str) :
  digits d -> Str.is_decimal_char U c = false ->
  Acquire.digits1 U (d ++ c :: r) = Some (c :: r).
Proof.
  intros [Hne Hd] Hc. destruct d as [|x d]; [done|].
  inversion Hd as [|? ? Hx Hd']; subst. simpl. rewrite Hx.
  by rewrite skip_digits_app.
Qed.

(** The string starts with a match of the pattern. *)
Definition starts_with_match (s : str) : Prop :=
  exists d1 d2 post,
    digits d1 /\ digits d2 /\
    s = of_string "nipstxt/nips" ++ d1 ++ of_string "/" ++ d2
        ++ of_string ".txt" ++ post.

Lemma match_here_iff (s : str) :
  Acquire.match_here U s = true <-> starts_with_match s.
Proof.
  unfold Acquire.match_here, starts_with_match. split.
  - destruct (Acquire.strip_prefix (of_string "nipstxt/nips") s)
      as [s1|] eqn:H1; [|discriminate].
    destruct (Acquire.digits1 U s1) as [s2|] eqn:H2; [|discriminate].
    destruct (Acquire.strip_prefix (of_string "/") s2)
      as [s3|] eqn:H3; [|discriminate].
    destruct (Acquire.digits1 U s3) as [s4|] eqn:H4; [|discriminate].
    destruct (Acquire.strip_prefix (of_string ".txt") s4)
      as [s5|] eqn:H5; [|discriminate].
    intros _.
    apply strip_prefix_Some in H1, H3, H5.
    apply digits1_Some in H2, H4.
    destruct H2 as (d1 & Hd1 & ->). destruct H4 as (d2 & Hd2 & ->).
    exists d1, d2, s5. subst. auto.
  - intros (d1 & d2 & post & Hd1 & Hd2 & ->).
    rewrite strip_prefix_app.
    change (of_string "/" ++ d2 ++ of_string ".txt" ++ post)
      with (47%N :: d2 ++ of_string ".txt" ++ post).
    rewrite digits1_app by (exact Hd1 || reflexivity).
    change (47%N :: d2 ++ of_string ".txt" ++ post)
      with (of_string "/" ++ d2 ++ of_string ".txt" ++ post).
    rewrite strip_prefix_app.
    change (of_string ".txt" ++ post)
      with (46%N :: of_string "txt" ++ post).
    rewrite digits1_app by (exact Hd2 || reflexivity).
    change (46%N :: of_string "txt" ++ post)
      with (of_string ".txt" ++ post).
    by rewrite strip_prefix_app.
Qed.

Lemma re_search_iff (s : str) :
  Acquire.re_search U s = true
  <-> exists pre rest, s = pre ++ rest /\ Acquire.match_here U rest = true.
Proof.
  induction s as [|c s IH].
  - split.
    + intros H. by exists [], [].
    + intros (pre & rest & Hs & H).
      symmetry in Hs. apply app_eq_nil in Hs. destruct Hs as [_ ->].
      discriminate H.
  - cbn [Acquire.re_search]. rewrite orb_true_iff, IH. split.
    + intros [H | (pre & rest & -> & H)].
      * by exists [], (c :: s).
      * by exists (c :: pre), rest.
    + intros (pre & rest & Hs & H). destruct pre as [|x pre].
      * left. simpl in Hs. by subst.
      * right. inversion Hs; subst. by exists pre, rest.
Qed.

(** X6: [re_search] accepts a member name exactly when the name contains
    [nipstxt/nips], one or more decimal digits, [/], one or more decimal
    digits and [.txt], in a row, anywhere in the name. *)
Theorem re_search_matches (s : str) :
  Acquire.re_search U s = true
  <-> exists pre d1 d2 post,
        digits d1 /\ digits d2 /\
        s = pre ++ of_string "nipstxt/nips" ++ d1 ++ of_string "/" ++ d2
            ++ of_string ".txt" ++ post.
Proof.
  rewrite re_search_iff. split.
  - intros (pre & rest & -> & Hmatch).
    apply match_here_iff in Hmatch.
    destruct Hmatch as (d1 & d2 & post & Hd1 & Hd2 & ->).
    by exists pre, d1, d2, post.
  - intros (pre & d1 & d2 & post & Hd1 & Hd2 & ->).
    eexists pre, _. split; [reflexivity|].
    apply match_here_iff. by exists d1, d2, post.
Qed.

End PatternFacts.

(** ** The tokenizer *)

Section TokenizerFacts.

Variable U : unicode_db.

Lemma flush_concat (cur : str) : concat (Str.flush cur) = cur.
Proof. destruct cur; [reflexivity | simpl; by rewrite app_nil_r]. Qed.

Lemma findall_word_concat (s : str) :
  forall cur,
    concat (Str.findall_word U cur s)
    = cur ++ List.filter (Str.is_word_char U) s.
Proof.
  induction s as [|c s IH]; intros cur; cbn [Str.findall_word List.filter].
  - by rewrite flush_concat, app_nil_r.
  - destruct (Str.is_word_char U c).
    + rewrite IH. by rewrite <- app_assoc.
    + rewrite concat_app, flush_concat, IH. reflexivity.
Qed.

(** A token: not empty, word characters only. *)
Definition word (token : str) : Prop :=
  token <> [] /\ Forall (fun c => Str.is_word_char U c = true) token.

Lemma flush_words (cur : str) :
  Forall (fun c => Str.is_word_char U c = true) cur ->
  Forall word (Str.flush cur).
Proof.
  intros Hcur. destruct cur as [|c cur]; [constructor|].
  constructor; [|constructor]. split; [discriminate | exact Hcur].
Qed.

Lemma findall_word_words (s : str) :
  forall cur,
    Forall (fun c => Str.is_word_char U c = true) cur ->
    Forall word (Str.findall_word U cur s).
Proof.
  induction s as [|c s IH]; intros cur Hcur; cbn [Str.findall_word].
  - by apply flush_words.
  - destruct (Str.is_word_char U c) eqn:Hc.
    + apply IH. apply Forall_app. split; [exact Hcur|]. by constructor.
    + apply Forall_app. split; [by apply flush_words|].
      apply IH. constructor.
Qed.

(** X7: every token of the tokenizer is a non-empty run of word
    characters, and the tokens one after the other are the word characters
    of the text in their order: the tokenizer drops the other characters and
    nothing else. *)
Theorem tokenize_keeps_word_chars (s : str) :
  Forall word (Str.tokenize U s) /\
  concat (Str.tokenize U s) = List.filter (Str.is_word_char U) s.
Proof.
  split.
  - apply findall_word_words. constructor.
  - apply (findall_word_concat s []).
Qed.

Lemma findall_word_run (w : str) :
  forall cur,
    Forall (fun c => Str.is_word_char U c = true) w ->
    Str.findall_word U cur w = Str.flush (cur ++ w).
Proof.
  induction w as [|c w IH]; intros cur Hw; cbn [Str.findall_word].
  - by rewrite app_nil_r.
  - inversion Hw as [|? ? Hc Hw']; subst. rewrite Hc, IH by exact Hw'.
    by rewrite <- app_assoc.
Qed.

Lemma findall_word_separator (s1 s2 : str) (c : N) :
  Str.is_word_char U c = false ->
  forall cur,
    Str.findall_word U cur (s1 ++ c :: s2)
    = Str.findall_word U cur s1 ++ Str.findall_word U [] s2.
Proof.
  intros Hc. induction s1 as [|x s1 IH]; intros cur;
    cbn [app Str.findall_word].
  - by rewrite Hc.
  - destruct (Str.is_word_char U x).
    + apply IH.
    + rewrite IH. by rewrite app_assoc.
Qed.

(** X8: a character that is no word character separates: the tokens of a
    text around it are the tokens of what is before it followed by the
    tokens of what is after it.  A non-empty text of word characters is one
    token, a text without word characters has none. *)
Theorem tokenize_splits_at_separators (s1 s2 w : str) (c : N) :
  (Str.is_word_char U c = false ->
   Str.tokenize U (s1 ++ c :: s2) = Str.tokenize U s1 ++ Str.tokenize U s2) /\
  (word w -> Str.tokenize U w = [w]) /\
  (Forall (fun c => Str.is_word_char U c = false) s1 ->
   Str.tokenize U s1 = []).
Proof.
  split; [|split].
  - intros Hc. by apply findall_word_separator.
  - intros [Hne Hw]. unfold Str.tokenize.
    rewrite findall_word_run by exact Hw. simpl.
    destruct w; [done | reflexivity].
  - intros Hs1. unfold Str.tokenize.
    induction Hs1 as [|x s Hx _ IH]; cbn [Str.findall_word]; [reflexivity|].
    rewrite Hx. exact IH.
Qed.

Lemma ascii_tolower_not_upper (c : N) :
  Str.ascii_isupper (Str.ascii_tolower c) = false.
Proof.
  unfold Str.ascii_tolower.
  destruct (Str.ascii_isupper c) eqn:Hc; [|exact Hc].
  unfold Str.ascii_isupper in *.
  apply andb_true_iff in Hc. destruct Hc as [Hlow Hhigh].
  apply N.leb_le in Hlow, Hhigh.
  apply andb_false_iff. right. apply N.leb_gt. lia.
Qed.

Lemma token_chars_from_text (s token : str) (c : N) :
  In token (Str.tokenize U s) -> In c token -> In c s.
Proof.
  intros Htoken Hc.
  assert (Hin : In c (concat (Str.tokenize U s))).
  { apply in_concat. by exists token. }
  unfold Str.tokenize in Hin. rewrite findall_word_concat in Hin.
  by apply filter_In in Hin as [Hin _].
Qed.

End TokenizerFacts.

Lemma tokenize_splits_at_separators_witness :
  Str.tokenize ascii_tables (of_string "ab" ++ 32%N :: of_string "c_1")
  = Str.tokenize ascii_tables (of_string "ab")
    ++ Str.tokenize ascii_tables (of_string "c_1")
  /\ Str.tokenize ascii_tables (of_string "c_1") = [of_string "c_1"]
  /\ Str.tokenize ascii_tables (of_string ", ") = [].
Proof.
  destruct (tokenize_splits_at_separators ascii_tables
              (of_string "ab") (of_string "c_1") (of_string "c_1") 32%N)
    as (Hsplit & Hword & _).
  destruct (tokenize_splits_at_separators ascii_tables
              (of_string ", ") [] [] 32%N) as (_ & _ & Hnone).
  split; [apply Hsplit; reflexivity|].
  split; [apply Hword | apply Hnone].
  - split; [discriminate | repeat constructor].
  - repeat constructor.
Defined.

(** ** What the tokenising cell keeps *)

Section CellFacts.

Variable U : unicode_db.

Lemma ascii_tokens_lower (s token : str) (c : N) :
  forallb Str.is_ascii s = true ->
  In token (tokens_of U s) -> In c token ->
  Str.ascii_isupper c = false.
Proof.
  intros Hascii Htoken Hc. unfold tokens_of, Str.lower in Htoken.
  rewrite Hascii in Htoken.
  pose proof (token_chars_from_text U _ _ _ Htoken Hc) as Hin.
  apply in_map_iff in Hin. destruct Hin as (x & <- & _).
  apply ascii_tolower_not_upper.
Qed.

(** X9: when the raw documents are ASCII, no token that the tokenising
    cell returns has a capital letter. *)
Theorem ascii_tokens_have_no_capitals (docs : list str) :
  Forall (fun s => forallb Str.is_ascii s = true) docs ->
  exists out,
    Preprocess.tokenize_and_filter U docs = Ok out /\
    Forall (Forall (Forall (fun c => Str.ascii_isupper c = false))) out.
Proof.
  intros Hascii. exists (map (clean_tokens U) docs).
  split; [apply tokenize_and_filter_map|].
  apply Forall_forall. intros doc Hdoc.
  apply list_elem_of_In, in_map_iff in Hdoc. destruct Hdoc as (s & <- & Hs).
  apply Forall_forall. intros token Htoken.
  apply Forall_forall. intros c Hc.
  apply list_elem_of_In in Htoken, Hc.
  unfold clean_tokens in Htoken.
  apply filter_In in Htoken as [Htoken _].
  apply filter_In in Htoken as [Htoken _].
  apply (ascii_tokens_lower s token c); [|exact Htoken | exact Hc].
  rewrite Forall_forall in Hascii. apply Hascii. by apply list_elem_of_In.
Qed.

Lemma forallb_false_exists (f : N -> bool) (l : str) :
  forallb f l = false <-> exists c, In c l /\ f c = false.
Proof.
  induction l as [|x l IH]; simpl.
  - split; [discriminate | by intros (c & [] & _)].
  - rewrite andb_false_iff, IH. split.
    + intros [Hx | (c & Hc & Hf)]; [by exists x; auto | by exists c; auto].
    + intros (c & [-> | Hc] & Hf); [by left | right; by exists c].
Qed.

(** X10: the two filters keep a token of the tokenizer exactly when it has
    two characters or more and at least one character that is not numeric:
    a word that contains digits stays, a number goes. *)
Theorem kept_tokens (s token : str) :
  In token (clean_tokens U s)
  <-> In token (tokens_of U s) /\ 2 <= length token /\
      exists c, In c token /\ Str.isnumeric_char U c = false.
Proof.
  unfold clean_tokens. rewrite !filter_In, Nat.ltb_lt, negb_true_iff.
  split.
  - intros [[Htoken Hnum] Hlen]. split; [exact Htoken|]. split; [lia|].
    destruct token as [|c token]; [simpl in Hlen; lia|].
    by apply forallb_false_exists.
  - intros (Htoken & Hlen & Hc). split; [|lia]. split; [exact Htoken|].
    destruct token as [|c token]; [reflexivity|].
    by apply forallb_false_exists.
Qed.

Lemma tokenize_loop_on_tokens (rest : list Preprocess.doc_value) :
  forall done,
    (exists l, In (Preprocess.Tokens l) rest) ->
    for_each (Preprocess.tokenize_body U)
      (seq (length done) (length rest)) (done ++ rest)
    = Raise AttributeError.
Proof.
  induction rest as [|v rest IH]; intros done (l & Hl); [destruct Hl|].
  cbn [length seq for_each]. destruct v as [s|l'].
  - rewrite tokenize_body_middle. cbn [bind].
    destruct Hl as [Hl | Hl]; [discriminate Hl|].
    specialize (IH (done ++ [Preprocess.Tokens (tokens_of U s)])).
    rewrite length_app in IH. cbn [length] in IH.
    replace (length done + 1) with (S (length done)) in IH by lia.
    rewrite <- app_assoc in IH. apply IH. by exists l.
  - unfold Preprocess.tokenize_body at 1.
    rewrite getitem_middle. reflexivity.
Qed.

(** X11: the tokenising loop cannot be run on documents that are token
    lists already: if any element of [docs] is a list, the loop raises
    [AttributeError] (a list has no [lower]), so running the cell a second
    time on its own result fails. *)
Theorem tokenize_loop_raises_on_lists (docs : list Preprocess.doc_value) :
  (exists l, In (Preprocess.Tokens l) docs) ->
  for_each (Preprocess.tokenize_body U) (range (length docs)) docs
  = Raise AttributeError.
Proof.
  intros Hl. apply (tokenize_loop_on_tokens docs [] Hl).
Qed.

End CellFacts.

Lemma ascii_tokens_have_no_capitals_witness :
  exists out,
    Preprocess.tokenize_and_filter ascii_tables [of_string "NIPS Paper No. 12"]
    = Ok out /\
    Forall (Forall (Forall (fun c => Str.ascii_isupper c = false))) out.
Proof.
  apply (ascii_tokens_have_no_capitals ascii_tables [of_string "NIPS Paper No. 12"]).
  repeat constructor.
Defined.

Lemma tokenize_loop_raises_on_lists_witness :
  for_each (Preprocess.tokenize_body ascii_tables) (range 2)
    [Preprocess.Text (of_string "A b"); Preprocess.Tokens [of_string "cd"]]
  = Raise AttributeError.
Proof.
  apply (tokenize_loop_raises_on_lists ascii_tables
           [Preprocess.Text (of_string "A b");
            Preprocess.Tokens [of_string "cd"]]).
  exists [of_string "cd"]. right. left. reflexivity.
Defined.

(** ** Running the two filters again, or without the loop *)

Section FilterFacts.

Variable U : unicode_db.

Lemma filter_all_true {A} (f : A -> bool) (l : list A) :
  (forall x, In x l -> f x = true) -> List.filter f l = l.
Proof.
  induction l as [|x l IH]; intros Hall; simpl; [reflexivity|].
  rewrite (Hall x (or_introl eq_refl)). f_equal.
  apply IH. intros y Hy. apply Hall. by right.
Qed.

Lemma clean_tokens_stable (s : str) :
  List.filter (fun token => 1 <? length token)
    (List.filter (fun token => negb (Str.isnumeric U token))
       (clean_tokens U s))
  = clean_tokens U s.
Proof.
  rewrite (filter_all_true (fun token => negb (Str.isnumeric U token))).
  - apply filter_all_true. intros token Htoken.
    apply clean_tokens_spec in Htoken as [Hlen _]. apply Nat.ltb_lt. lia.
  - intros token Htoken.
    apply clean_tokens_spec in Htoken as [_ Hnum]. by rewrite Hnum.
Qed.

(** X13: the two filtering comprehensions change nothing when they are run
    again on the result of the tokenising cell. *)
Theorem filters_are_idempotent (docs : list str) (out : list (list str)) :
  Preprocess.tokenize_and_filter U docs = Ok out ->
  Preprocess.remove_single_chars
    (Preprocess.remove_numbers U (map Preprocess.Tokens out))
  = out.
Proof.
  rewrite tokenize_and_filter_map. intros Hout. inversion Hout; subst.
  unfold Preprocess.remove_single_chars, Preprocess.remove_numbers.
  rewrite !map_map. cbn [Preprocess.iterate].
  induction docs as [|s docs IH]; [reflexivity|].
  cbn [map]. by rewrite clean_tokens_stable, IH.
Qed.

(** X14: without the tokenising loop the comprehensions iterate over the
    characters of each text, every token is one character, and the second
    filter removes them all: every document comes out empty. *)
Theorem filters_on_texts_leave_nothing (docs : list str) :
  Preprocess.remove_single_chars
    (Preprocess.remove_numbers U (map Preprocess.Text docs))
  = map (fun _ => []) docs.
Proof.
  unfold Preprocess.remove_single_chars, Preprocess.remove_numbers.
  rewrite !map_map. apply map_ext. intros s. cbn [Preprocess.iterate].
  induction s as [|c s IH]; [reflexivity|].
  cbn [map List.filter].
  destruct (negb (Str.isnumeric U [c])); [|exact IH].
  cbn [List.filter length Nat.ltb Nat.leb]. exact IH.
Qed.

End FilterFacts.

Lemma filters_are_idempotent_witness :
  Preprocess.remove_single_chars
    (Preprocess.remove_numbers ascii_tables
       (map Preprocess.Tokens [[of_string "x1"; of_string "ab"]]))
  = [[of_string "x1"; of_string "ab"]].
Proof.
  apply (filters_are_idempotent ascii_tables [of_string "X1 7 ab c"]).
  vm_compute. reflexivity.
Defined.
